(** * Endpoint addressing primitives of yb/util/net/net_util.cc

    A shallow embedding of [HostPort] parsing, address-list resolution and
    the coordinated free-port allocator [GetFreePort], together with the
    properties the module's specification states about them. *)

From Stdlib Require Import ZArith Ascii Lia.
From stdpp Require Import base tactics option list strings pretty gmap.

Local Open Scope Z_scope.
Set Warnings "-clear-no-such-hyp".

(** ** Status values (yb/util/status.h)

    [STATUS(Code, msg)], [STATUS(Code, msg, msg2)] and
    [STATUS(Code, msg, msg2, posix_code)] build a status from a code, a
    message, an optional second message and an optional OS error number. *)

Inductive StatusCode : Set :=
  | kOk
  | kNotFound
  | kInvalidArgument
  | kNetworkError.

Record Status : Set := mkStatus {
  code : StatusCode;
  message : string;
  message2 : string;
  posix_code : option Z
}.

Definition Status_OK : Status := mkStatus kOk "" "" None.

Definition STATUS1 (c : StatusCode) (m : string) : Status := mkStatus c m "" None.
Definition STATUS2 (c : StatusCode) (m m2 : string) : Status := mkStatus c m m2 None.
Definition STATUS3 (c : StatusCode) (m m2 : string) (e : Z) : Status :=
  mkStatus c m m2 (Some e).

Definition ok (s : Status) : bool :=
  match code s with kOk => true | _ => false end.

(** [RETURN_NOT_OK(s)] leaving the state [st] produced so far. *)
Notation "'RETURN_NOT_OK' s 'leaving' st ';;' k" :=
  (if ok s then k else (s, st))
  (at level 10, s at level 9, st at level 9, k at level 200,
   format "'[v' 'RETURN_NOT_OK'  s  'leaving'  st  ';;' '/' k ']'").

Global Instance StatusCode_eq_dec : EqDecision StatusCode.
Proof. solve_decision. Defined.

Global Instance Status_eq_dec : EqDecision Status.
Proof. solve_decision. Defined.

(** ** String helpers of gutil/strings used by the module *)

Module Strings.

Definition colon : ascii := ":"%char.
Definition comma : ascii := ","%char.

(** [strcount(str, c)]: number of occurrences of [c]. *)
Fixpoint strcount (s : string) (c : ascii) : nat :=
  match s with
  | EmptyString => 0%nat
  | String a s' => ((if decide (a = c) then 1 else 0) + strcount s' c)%nat
  end.

(** [strings::Split(str, strings::delimiter::Limit(d, 1))] converted to a
    [std::pair]: at most one split, at the first delimiter; the second
    component is empty when there is no delimiter. *)
Fixpoint SplitLimit1 (s : string) (d : ascii) : string * string :=
  match s with
  | EmptyString => (EmptyString, EmptyString)
  | String a s' =>
      if decide (a = d) then (EmptyString, s')
      else let '(l, r) := SplitLimit1 s' d in (String a l, r)
  end.

(** Pieces of [s] between occurrences of [d], empty pieces included. *)
Fixpoint SplitAll (s : string) (d : ascii) : list string :=
  match s with
  | EmptyString => [EmptyString]
  | String a s' =>
      if decide (a = d) then EmptyString :: SplitAll s' d
      else match SplitAll s' d with
           | [] => [String a EmptyString]
           | p :: ps => String a p :: ps
           end
  end.

Definition nonempty (s : string) : bool :=
  match s with EmptyString => false | _ => true end.

(** [strings::Split(str, d, strings::SkipEmpty())]. *)
Definition SplitSkipEmpty (s : string) (d : ascii) : list string :=
  filter (λ p, nonempty p = true) (SplitAll s d).

Fixpoint StripLeading (s : string) : string :=
  match s with
  | String a s' => if Ascii.is_space a then StripLeading s' else s
  | EmptyString => EmptyString
  end.

Fixpoint StripTrailing (s : string) : string :=
  match s with
  | EmptyString => EmptyString
  | String a s' =>
      match StripTrailing s' with
      | EmptyString => if Ascii.is_space a then EmptyString else String a EmptyString
      | r => String a r
      end
  end.

(** [StripWhiteSpace(&s)]: drops leading and trailing ASCII white space. *)
Definition StripWhiteSpace (s : string) : string :=
  StripTrailing (StripLeading s).

Fixpoint digits_value (acc : Z) (s : string) : option Z :=
  match s with
  | EmptyString => Some acc
  | String a s' =>
      match Ascii.is_nat a with
      | Some d => digits_value (10 * acc + Z.of_nat d) s'
      | None => None
      end
  end.

Definition UINT32_MAX : Z := 4294967295.

(** Modelled from the spec: [SimpleAtoi] (text to [uint32_t]) of
    gutil/strings/numbers.h is not part of this file; the specification
    asks that the text "parse as an unsigned decimal".  The text is
    accepted when it is a non-empty run of decimal digits whose value fits
    the 32-bit output. *)
Definition SimpleAtoi (s : string) : option Z :=
  match s with
  | EmptyString => None
  | _ => match digits_value 0 s with
         | Some v => if decide (v ≤ UINT32_MAX) then Some v else None
         | None => None
         end
  end.

(** [strings::Substitute("$0:$1", a, b)]. *)
Definition Substitute_colon (a b : string) : string := a +:+ ":" +:+ b.

(** [prefix p s]: [s] starts with [p]. *)
Fixpoint prefixb (p s : string) : bool :=
  match p, s with
  | EmptyString, _ => true
  | String a p', String b s' => bool_decide (a = b) && prefixb p' s'
  | String _ _, EmptyString => false
  end.

(** [contains s p]: [p] occurs in [s] as a contiguous substring. *)
Fixpoint contains (s p : string) : bool :=
  prefixb p s ||
  match s with
  | EmptyString => false
  | String _ s' => contains s' p
  end.

(** [JoinStrings(components, delim)] of gutil/strings/join.h: the
    components one after the other with [delim] in between. *)
Fixpoint JoinStrings (components : list string) (delim : ascii) : string :=
  match components with
  | [] => EmptyString
  | [c] => c
  | c :: rest => c +:+ String delim (JoinStrings rest delim)
  end.

End Strings.

(** ** Sockaddr (yb/util/net/sockaddr.h) *)

Module Sockaddr.

(** Modelled from the spec: the class [Sockaddr] is declared outside this
    file; the specification's ResolvedAddress is a concrete IPv4 address plus
    a 16-bit port, comparable and hashable by (IP, port).  The address is kept
    as the 32-bit number whose most significant byte is the first octet. *)
Record t : Set := mk { ip : Z; port : Z }.

Global Instance t_eq_dec : EqDecision t.
Proof. solve_decision. Defined.

Global Instance t_countable : Countable t.
Proof.
  refine (inj_countable' (λ a, (ip a, port a)) (λ q, mk (fst q) (snd q)) _).
  intros []; reflexivity.
Defined.

Definition octet (a : t) (k : Z) : Z := (ip a `div` 2 ^ (8 * k)) `mod` 256.

(** Modelled from the spec: [Sockaddr::host()] renders the address as text;
    the dotted-quad form is the one the glossary uses for the wildcard
    address, 0.0.0.0. *)
Definition host (a : t) : string :=
  pretty (octet a 3) +:+ "." +:+ pretty (octet a 2) +:+ "." +:+
  pretty (octet a 1) +:+ "." +:+ pretty (octet a 0).

(** Modelled from the spec: [Sockaddr::ToString()], the endpoint text form
    host:port of the resolved address. *)
Definition ToString (a : t) : string :=
  Strings.Substitute_colon (host a) (pretty (port a)).

(** Modelled from the spec: [Sockaddr::IsWildcard()]; the wildcard address
    is the "all local interfaces" address 0.0.0.0. *)
Definition IsWildcard (a : t) : bool := bool_decide (ip a = 0).

End Sockaddr.

(** ** HostPort *)

Module HostPort.
Import Strings.

Record t : Set := mk { host : string; port : Z }.

Global Instance t_eq_dec : EqDecision t.
Proof. solve_decision. Defined.

(** [HostPort::HostPort()]. *)
Definition empty : t := mk "" 0.

(** [HostPort::ParseString]: the receiver is updated only on success.  The
    32-bit [port] is stored into the 16-bit field [port_]. *)
Definition ParseString (self : t) (str : string) (default_port : Z) : Status * t :=
  let p := SplitLimit1 str colon in
  let first := StripWhiteSpace (fst p) in
  if negb (nonempty (snd p)) && Nat.eqb (strcount str colon) 0 then
    (Status_OK, mk first (default_port `mod` 65536))
  else
    match SimpleAtoi (snd p) with
    | None => (STATUS2 kInvalidArgument "Invalid port" str, self)
    | Some port =>
        if decide (port > 65535)
        then (STATUS2 kInvalidArgument "Invalid port" str, self)
        else (Status_OK, mk first (port `mod` 65536))
    end.

(** [HostPort::ToString]. *)
Definition ToString (self : t) : string :=
  Substitute_colon (host self) (pretty (port self)).

(** [HostPort::equals(const Sockaddr&)]. *)
Definition equals (self : t) (sockaddr : Sockaddr.t) : bool :=
  bool_decide (Sockaddr.host sockaddr = host self) &&
  bool_decide (Sockaddr.port sockaddr = port self).

(** The loop of [HostPort::ParseStrings] over the split segments;
    [host_ports] is the local vector. *)
Fixpoint ParseStrings_loop (addr_strings : list string) (default_port : Z)
    (host_ports : list t) : Status * list t :=
  match addr_strings with
  | [] => (Status_OK, host_ports)
  | addr_string :: rest =>
      let '(s, host_port) := ParseString empty addr_string default_port in
      RETURN_NOT_OK s leaving host_ports ;;
      ParseStrings_loop rest default_port (host_ports ++ [host_port])
  end.

(** [HostPort::ParseStrings]: [res] is the caller's vector, assigned only
    after the loop. *)
Definition ParseStrings (comma_sep_addrs : string) (default_port : Z)
    (res : list t) : Status * list t :=
  let addr_strings := SplitSkipEmpty comma_sep_addrs comma in
  let '(s, host_ports) := ParseStrings_loop addr_strings default_port [] in
  RETURN_NOT_OK s leaving res ;;
  (Status_OK, host_ports).

(** The inner loop of [HostPort::RemoveAndGetHostPortList] over the
    segments of one comma-separated string; the state is [found] and the
    caller's vector [res]. *)
Fixpoint Remove_inner (remove : Sockaddr.t) (addr_strings : list string)
    (default_port : Z) (st : bool * list t) : Status * (bool * list t) :=
  match addr_strings with
  | [] => (Status_OK, st)
  | single_addr :: rest =>
      let '(s, host_port) := ParseString empty single_addr default_port in
      RETURN_NOT_OK s leaving st ;;
      if equals host_port remove
      then Remove_inner remove rest default_port (true, snd st)
      else Remove_inner remove rest default_port (fst st, snd st ++ [host_port])
  end.

(** The outer loop, over the vector of comma-separated strings. *)
Fixpoint Remove_outer (remove : Sockaddr.t) (multiple_server_addresses : list string)
    (default_port : Z) (st : bool * list t) : Status * (bool * list t) :=
  match multiple_server_addresses with
  | [] => (Status_OK, st)
  | master_server_addr :: rest =>
      let '(s, st') :=
        Remove_inner remove (SplitSkipEmpty master_server_addr comma) default_port st in
      RETURN_NOT_OK s leaving st' ;;
      Remove_outer remove rest default_port st'
  end.

(** [out.str(x)] on a [std::ostringstream] replaces the buffer by [x]. *)
Definition ostringstream_str (out x : string) : string := x.

Fixpoint Remove_log_loop (multiple_server_addresses : list string) (out : string) : string :=
  match multiple_server_addresses with
  | [] => out
  | master_server_addr :: rest =>
      Remove_log_loop rest (ostringstream_str (ostringstream_str out master_server_addr) " ")
  end.

Record RemoveResult : Set := mkRemove {
  status : Status;
  res : list t;          (* the caller's output vector afterwards *)
  error_log : list string  (* lines written with LOG(ERROR) *)
}.

(** [HostPort::RemoveAndGetHostPortList]. *)
Definition RemoveAndGetHostPortList (remove : Sockaddr.t)
    (multiple_server_addresses : list string) (default_port : Z)
    (res0 : list t) : RemoveResult :=
  let '(s, (found, res1)) :=
    Remove_outer remove multiple_server_addresses default_port (false, res0) in
  if ok s then
    if negb found then
      let out := ostringstream_str "" "Current list of master addresses: " in
      let out := Remove_log_loop multiple_server_addresses out in
      mkRemove
        (STATUS1 kNotFound
           ("Cannot find " +:+ Sockaddr.ToString remove +:+ " in master addresses."))
        res1 [out]
    else mkRemove Status_OK res1 []
  else mkRemove s res1 [].

(** [HostPort::HostPort(const Sockaddr&)]. *)
Definition of_Sockaddr (addr : Sockaddr.t) : t :=
  mk (Sockaddr.host addr) (Sockaddr.port addr).

(** [HostPort::ToCommaSeparatedString]. *)
Definition ToCommaSeparatedString (hostports : list t) : string :=
  JoinStrings (map ToString hostports) comma.

End HostPort.

(** ** Name resolution *)

Module Net.
Import Strings.

Definition AF_INET : Z := 2.
Definition SOCK_STREAM : Z := 1.
Definition SOCK_DGRAM : Z := 2.
Definition AI_CANONNAME : Z := 2.

(** [struct addrinfo hints] after [memset(&hints, 0, sizeof(hints))]. *)
Record addrinfo_hints : Set := mkHints {
  ai_flags : Z;
  ai_family : Z;
  ai_socktype : Z
}.

Definition hints_zero : addrinfo_hints := mkHints 0 0 0.

(** What one call of [getaddrinfo] leaves behind: its return code, the
    IPv4 addresses of the result list, the canonical name of the first
    entry and the value of [errno] after the call. *)
Record gai_result : Set := mkGai {
  gai_rc : Z;
  gai_addrs : list Z;
  gai_canonname : string;
  gai_errno : Z
}.

(** The operating system as seen by this file.  Name resolution is an
    injected map from the queried name and hints to a result. *)
Record OS : Type := mkOS {
  getaddrinfo : string → addrinfo_hints → gai_result;
  gai_strerror : Z → string;
  gethostname_ret : Z;
  gethostname_name : string;
  gethostname_errno : Z;
  ErrnoToString : Z → string
}.

(** [HostPort::ResolveAddresses]; [addresses] may be a null pointer. *)
Definition ResolveAddresses (os : OS) (self : HostPort.t)
    (addresses : option (list Sockaddr.t)) : Status * option (list Sockaddr.t) :=
  let hints := mkHints 0 AF_INET SOCK_STREAM in
  let r := getaddrinfo os (HostPort.host self) hints in
  let rc := gai_rc r in
  if decide (rc ≠ 0) then
    (STATUS2 kNetworkError
       ("Unable to resolve address '" +:+ HostPort.host self +:+ "'")
       (gai_strerror os rc), addresses)
  else
    (Status_OK,
     (λ v, v ++ map (λ a, Sockaddr.mk a (HostPort.port self)) (gai_addrs r)) <$> addresses).

(** The inner loop of [ParseAddressList]: [uniqued] is the
    [unordered_set<Sockaddr>], [addresses] the caller's vector. *)
Fixpoint insert_unique (this_addresses : list Sockaddr.t)
    (st : gset Sockaddr.t * list Sockaddr.t) : gset Sockaddr.t * list Sockaddr.t :=
  match this_addresses with
  | [] => st
  | addr :: rest =>
      if decide (addr ∈ fst st)
      then insert_unique rest st
      else insert_unique rest ({[addr]} ∪ fst st, snd st ++ [addr])
  end.

Fixpoint ParseAddressList_loop (os : OS) (host_ports : list HostPort.t)
    (st : gset Sockaddr.t * list Sockaddr.t) : Status * (gset Sockaddr.t * list Sockaddr.t) :=
  match host_ports with
  | [] => (Status_OK, st)
  | host_port :: rest =>
      let '(s, this_addresses) := ResolveAddresses os host_port (Some []) in
      RETURN_NOT_OK s leaving st ;;
      ParseAddressList_loop os rest (insert_unique (default [] this_addresses) st)
  end.

(** [ParseAddressList]; new entries are appended to the caller's vector. *)
Definition ParseAddressList (os : OS) (addr_list : string) (default_port : Z)
    (addresses : list Sockaddr.t) : Status * list Sockaddr.t :=
  let '(s, host_ports) := HostPort.ParseStrings addr_list default_port [] in
  RETURN_NOT_OK s leaving addresses ;;
  let '(s', st) := ParseAddressList_loop os host_ports (∅, addresses) in
  (s', snd st).

(** [GetHostname]. *)
Definition GetHostname (os : OS) (hostname : string) : Status * string :=
  if decide (gethostname_ret os ≠ 0) then
    (STATUS3 kNetworkError "Unable to determine local hostname"
       (ErrnoToString os (gethostname_errno os)) (gethostname_errno os), hostname)
  else (Status_OK, gethostname_name os).

(** [GetFQDN]. *)
Definition GetFQDN (os : OS) (hostname : string) : Status * string :=
  let '(s, hostname) := GetHostname os hostname in
  RETURN_NOT_OK s leaving hostname ;;
  let hints := mkHints AI_CANONNAME 0 SOCK_DGRAM in
  let result := getaddrinfo os hostname hints in
  let rc := gai_rc result in
  if decide (rc ≠ 0) then
    (STATUS3 kNetworkError "Unable to lookup FQDN"
       (ErrnoToString os (gai_errno result)) (gai_errno result), hostname)
  else (Status_OK, gai_canonname result).

(** [IsPrivilegedPort]. *)
Definition IsPrivilegedPort (port : Z) : bool :=
  bool_decide (port ≤ 1024) && negb (bool_decide (port = 0)).

(** [SockaddrFromHostPort]; [addr] is the caller's output. *)
Definition SockaddrFromHostPort (os : OS) (host_port : HostPort.t) (addr : Sockaddr.t)
    : Status * Sockaddr.t :=
  let '(s, addrs) := ResolveAddresses os host_port (Some []) in
  RETURN_NOT_OK s leaving addr ;;
  match default [] addrs with
  | [] =>
      (STATUS2 kNetworkError "Unable to resolve address" (HostPort.ToString host_port),
       addr)
  | first :: _ => (Status_OK, first)
  end.

(** [HostPortFromSockaddrReplaceWildcard]; [hp] is the caller's output. *)
Definition HostPortFromSockaddrReplaceWildcard (os : OS) (addr : Sockaddr.t)
    (hp : HostPort.t) : Status * HostPort.t :=
  let '(s, host) :=
    if Sockaddr.IsWildcard addr then GetFQDN os "" else (Status_OK, Sockaddr.host addr) in
  RETURN_NOT_OK s leaving hp ;;
  (Status_OK, HostPort.mk host (Sockaddr.port addr)).

End Net.

(** ** The free-port allocator *)

Module Alloc.
Import Strings.

Definition kMinPort : Z := 40000.
Definition kMaxPort : Z := 65535.
Definition kAttempts : nat := 1000.
Definition lock_file_dir : string := "/tmp/yb-port-locks".

(** [lock_file_dir + "/" + std::to_string(random_port) + ".lck"]. *)
Definition lock_file (random_port : Z) : string :=
  lock_file_dir +:+ "/" +:+ pretty random_port +:+ ".lck".

(** A [FileLock] object: the claim on one lock file. *)
Record FileLock : Set := mkLock { lock_path : string }.

Global Instance FileLock_eq_dec : EqDecision FileLock.
Proof. solve_decision. Defined.

(** What a call of [GetFreePort] meets outside the process: whether the lock
    directory can be created, the successive values of [rand.Next()], the
    outcome of [sock.Bind] at each attempt, and whether opening the lock file
    fails for a reason other than the lock being held. *)
Record PortEnv : Type := mkEnv {
  create_dir_ok : bool;
  rand_next : nat → Z;
  bind_ok : nat → Z → bool;
  lock_io_ok : nat → Z → bool
}.

(** Modelled from the spec: [Env::LockFile(fname, &lock, false)] is declared
    outside this file; the specification asks for an exclusive, non-blocking,
    non-recursive lock on the path.  [held] is the set of lock files of the
    shared directory that are locked at the moment; the call fails at once
    when [fname] is among them. *)
Definition LockFile (held : gset string) (fname : string) (io_ok : bool)
    : option (FileLock * gset string) :=
  if decide (fname ∈ held) then None
  else if io_ok then Some (mkLock fname, {[fname]} ∪ held)
  else None.

(** Releasing the lock when its owner discards the [FileLock]. *)
Definition UnlockFile (held : gset string) (lock : FileLock) : gset string :=
  held ∖ {[lock_path lock]}.

(** [kMinPort + rand.Next() % (kMaxPort - kMinPort + 1)], computed on
    32-bit unsigned values and stored in a [uint16_t]. *)
Definition random_port_of (next : Z) : Z :=
  ((kMinPort + (next `mod` 2 ^ 32) `mod` (kMaxPort - kMinPort + 1)) `mod` 2 ^ 32) `mod` 2 ^ 16.

(** One iteration of the loop, as recorded for inspection. *)
Record Attempt : Set := mkAttempt {
  att_port : Z;
  att_bound : bool;
  att_locked : bool
}.

Inductive Outcome : Set :=
  | Returned (port : Z) (lock : FileLock)
  | Fatal (msg : string).

Record Run : Type := mkRun {
  outcome : Outcome;
  held_after : gset string;
  attempts : list Attempt
}.

Definition fatal_no_port : string :=
  "Could not find a free random port between 40000 and 65535 inclusively".
Definition fatal_no_dir : string :=
  "Could not create /tmp/yb-port-locks directory".

(** The loop [for (int i = 0; i < 1000; ++i)]: [remaining] iterations are
    left, the next one has index [i]; [trace] collects the attempts made.
    After the last iteration [LOG(FATAL)] ends the process. *)
Fixpoint GetFreePort_loop (env : PortEnv) (remaining : nat) (i : nat)
    (held : gset string) (trace : list Attempt) : Run :=
  match remaining with
  | O => mkRun (Fatal fatal_no_port) held trace
  | S remaining' =>
      let random_port := random_port_of (rand_next env i) in
      if bind_ok env i random_port then
        match LockFile held (lock_file random_port) (lock_io_ok env i random_port) with
        | Some (lock, held') =>
            mkRun (Returned random_port lock) held'
                  (trace ++ [mkAttempt random_port true true])
        | None =>
            GetFreePort_loop env remaining' (S i) held
                             (trace ++ [mkAttempt random_port true false])
        end
      else
        GetFreePort_loop env remaining' (S i) held
                         (trace ++ [mkAttempt random_port false false])
  end.

(** [GetFreePort]. *)
Definition GetFreePort (env : PortEnv) (held : gset string) : Run :=
  if create_dir_ok env then GetFreePort_loop env kAttempts 0 held []
  else mkRun (Fatal fatal_no_dir) held [].

(** *** Several allocator instances on one lock directory *)

(** A reservation in the hands of a caller. *)
Record Handle : Set := mkHandle {
  owner : nat;
  h_port : Z;
  h_lock : FileLock
}.

Record System : Type := mkSystem {
  lock_dir : gset string;
  handles : list Handle
}.

Inductive Event : Type :=
  | CallGetFreePort (inst : nat) (env : PortEnv)
  | Discard (k : nat).

Definition step (s : System) (e : Event) : System :=
  match e with
  | CallGetFreePort inst env =>
      let r := GetFreePort env (lock_dir s) in
      match outcome r with
      | Returned port lock =>
          mkSystem (held_after r) (handles s ++ [mkHandle inst port lock])
      | Fatal _ => mkSystem (held_after r) (handles s)
      end
  | Discard k =>
      match handles s !! k with
      | Some h => mkSystem (UnlockFile (lock_dir s) (h_lock h)) (delete k (handles s))
      | None => s
      end
  end.

Definition run (evs : list Event) (s : System) : System := foldl step s evs.

(** The directory as the instances find it: [held] are lock files locked by
    others; no instance has a reservation yet. *)
Definition start (held : gset string) : System := mkSystem held [].

End Alloc.

(** ** Vocabulary of the statements *)

Import Strings.

(** The status [HostPort::ParseString] fails with. *)
Definition invalid_port (str : string) : Status :=
  STATUS2 kInvalidArgument "Invalid port" str.

(** [pieces] written one after the other with [d] in between. *)
Fixpoint join (d : ascii) (pieces : list string) : string :=
  match pieces with
  | [] => ""
  | [p] => p
  | p :: ps => p +:+ String d (join d ps)
  end.

(** White space only; white space at the start; white space at the end. *)
Fixpoint all_space (s : string) : bool :=
  match s with
  | EmptyString => true
  | String a s' => Ascii.is_space a && all_space s'
  end.

Definition starts_with_space (s : string) : bool :=
  match s with
  | EmptyString => false
  | String a _ => Ascii.is_space a
  end.

Fixpoint ends_with_space (s : string) : bool :=
  match s with
  | EmptyString => false
  | String a EmptyString => Ascii.is_space a
  | String _ s' => ends_with_space s'
  end.

(** [ParseString] on a fresh [HostPort], as the list functions call it. *)
Definition parse_status (default_port : Z) (s : string) : Status :=
  fst (HostPort.ParseString HostPort.empty s default_port).
Definition parse_value (default_port : Z) (s : string) : HostPort.t :=
  snd (HostPort.ParseString HostPort.empty s default_port).
Definition parses (default_port : Z) (s : string) : Prop :=
  ok (parse_status default_port s) = true.

Global Instance parses_dec (default_port : Z) (s : string) :
  Decision (parses default_port s).
Proof. unfold parses. apply _. Defined.

(** The segments [RemoveAndGetHostPortList] visits, in order. *)
Definition flat_segments (multiple_server_addresses : list string) : list string :=
  concat (map (λ m, SplitSkipEmpty m comma) multiple_server_addresses).

Definition is_target (remove : Sockaddr.t) (hp : HostPort.t) : bool :=
  HostPort.equals hp remove.

Definition kept (remove : Sockaddr.t) (hps : list HostPort.t) : list HostPort.t :=
  filter (λ hp, is_target remove hp = false) hps.

(** Removal of the first endpoint equal to the target only, the reading the
    specification gives of RemoveOne. *)
Fixpoint remove_first (remove : Sockaddr.t) (hps : list HostPort.t) : list HostPort.t :=
  match hps with
  | [] => []
  | hp :: rest => if is_target remove hp then rest else hp :: remove_first remove rest
  end.

(** A message enumerates the input strings when each occurs in it. *)
Definition enumerates (msg : string) (inputs : list string) : Prop :=
  Forall (λ a, contains msg a = true) inputs.

Definition not_found_message (remove : Sockaddr.t) : string :=
  "Cannot find " +:+ Sockaddr.ToString remove +:+ " in master addresses.".

(** Hints of the two resolver calls. *)
Definition inet_stream_hints : Net.addrinfo_hints :=
  Net.mkHints 0 Net.AF_INET Net.SOCK_STREAM.
Definition canonname_hints : Net.addrinfo_hints :=
  Net.mkHints Net.AI_CANONNAME 0 Net.SOCK_DGRAM.

(** The endpoint resolves, and what it resolves to. *)
Definition resolves (os : Net.OS) (hp : HostPort.t) : Prop :=
  Net.gai_rc (Net.getaddrinfo os (HostPort.host hp) inet_stream_hints) = 0.
Definition resolved (os : Net.OS) (hp : HostPort.t) : list Sockaddr.t :=
  map (λ a, Sockaddr.mk a (HostPort.port hp))
      (Net.gai_addrs (Net.getaddrinfo os (HostPort.host hp) inet_stream_hints)).

(** The ordered unique sequence of the specification: each address stays
    where it is first seen, later copies are dropped. *)
Fixpoint first_occurrences (l : list Sockaddr.t) : list Sockaddr.t :=
  match l with
  | [] => []
  | x :: l' => x :: filter (λ y, y ≠ x) (first_occurrences l')
  end.

(** A status carries the resolver's native error text and code of a call
    that returned [rc]. *)
Definition carries_resolver_error (os : Net.OS) (rc : Z) (st : Status) : Prop :=
  message2 st = Net.gai_strerror os rc ∧ posix_code st = Some rc.

(** A host on which no name resolves: every lookup returns EAI_NONAME (-2)
    and leaves [errno] at 0. *)
Definition os_no_names : Net.OS :=
  Net.mkOS (λ _ _, Net.mkGai (-2) [] "" 0)
           (λ rc, if decide (rc = -2) then "Name or service not known" else "Unknown error")
           0 "localhost" 0
           (λ e, if decide (e = 0) then "Success" else "Error").

(** A host that knows 10.0.0.1 under the name db as well. *)
Definition os_db : Net.OS :=
  Net.mkOS (λ name _,
              if decide (name = "db") then Net.mkGai 0 [167772161] "db.local" 0
              else if decide (name = "10.0.0.1") then Net.mkGai 0 [167772161] "db.local" 0
              else if decide (name = "twice") then Net.mkGai 0 [167772162; 167772161; 167772162] "" 0
              else Net.mkGai (-2) [] "" 0)
           (λ rc, if decide (rc = -2) then "Name or service not known" else "Unknown error")
           0 "db" 0
           (λ e, if decide (e = 0) then "Success" else "Error").

(** The port tried at iteration [i], and whether that iteration obtains the
    lock when the locked files are [held]. *)
Definition candidate (env : Alloc.PortEnv) (i : nat) : Z :=
  Alloc.random_port_of (Alloc.rand_next env i).

Definition attempt_succeeds (env : Alloc.PortEnv) (held : gset string) (i : nat) : bool :=
  Alloc.bind_ok env i (candidate env i)
  && bool_decide (Alloc.lock_file (candidate env i) ∉ held)
  && Alloc.lock_io_ok env i (candidate env i).

Definition failed (a : Alloc.Attempt) : Prop := Alloc.att_locked a = false.

(** What [n] iterations starting at index [i] produce. *)
Definition loop_post (env : Alloc.PortEnv) (held : gset string) (n i : nat)
    (trace : list Alloc.Attempt) (r : Alloc.Run) : Prop :=
  (∃ (k : nat) (fails : list Alloc.Attempt),
      (k < n)%nat ∧ length fails = k ∧ Forall failed fails
      ∧ (∀ j, (j < k)%nat → attempt_succeeds env held (i + j) = false)
      ∧ attempt_succeeds env held (i + k) = true
      ∧ r = Alloc.mkRun
              (Alloc.Returned (candidate env (i + k))
                 (Alloc.mkLock (Alloc.lock_file (candidate env (i + k)))))
              ({[Alloc.lock_file (candidate env (i + k))]} ∪ held)
              (trace ++ fails ++ [Alloc.mkAttempt (candidate env (i + k)) true true]))
  ∨ ((∀ j, (j < n)%nat → attempt_succeeds env held (i + j) = false)
     ∧ ∃ fails : list Alloc.Attempt,
         length fails = n ∧ Forall failed fails
         ∧ r = Alloc.mkRun (Alloc.Fatal Alloc.fatal_no_port) held (trace ++ fails)).

(** Reservations are sound: each handle holds the lock file of its port,
    that file is locked in the directory, and no two handles share a port. *)
Definition sound (s : Alloc.System) : Prop :=
  (∀ i j h1 h2, Alloc.handles s !! i = Some h1 → Alloc.handles s !! j = Some h2 →
     i ≠ j → Alloc.h_port h1 ≠ Alloc.h_port h2)
  ∧ (∀ h, h ∈ Alloc.handles s →
       Alloc.h_lock h = Alloc.mkLock (Alloc.lock_file (Alloc.h_port h))
       ∧ Alloc.lock_path (Alloc.h_lock h) ∈ Alloc.lock_dir s).

(** Random draws 7, 8, 9, ...; every bind succeeds, no I/O failure. *)
Definition env_free : Alloc.PortEnv :=
  Alloc.mkEnv true (λ i, 7 + Z.of_nat i) (λ _ _, true) (λ _ _, true).

(** Every port is in use: no bind succeeds. *)
Definition env_busy : Alloc.PortEnv :=
  Alloc.mkEnv true (λ i, 4294967296 * 3 + 25535 + Z.of_nat i) (λ _ _, false) (λ _ _, true).

(** Decimal digits only. *)
Fixpoint all_digits (s : string) : bool :=
  match s with
  | EmptyString => true
  | String a s' => bool_decide (is_Some (Ascii.is_nat a)) && all_digits s'
  end.

(** A host text that [ParseString] reads back as it is: no colon and no
    white space at either end. *)
Definition plain_host (h : string) : Prop :=
  strcount h colon = 0%nat
  ∧ starts_with_space h = false ∧ ends_with_space h = false.

(** An endpoint as [ParseString] builds them. *)
Definition well_formed (hp : HostPort.t) : Prop :=
  plain_host (HostPort.host hp) ∧ 0 ≤ HostPort.port hp ≤ 65535.

(** The lock file of a reservation. *)
Definition handle_file (h : Alloc.Handle) : string :=
  Alloc.lock_file (Alloc.h_port h).

(** The status [ResolveAddresses] fails with for endpoint [hp]. *)
Definition unresolved_status (os : Net.OS) (hp : HostPort.t) : Status :=
  STATUS2 kNetworkError
    ("Unable to resolve address '" +:+ HostPort.host hp +:+ "'")
    (Net.gai_strerror os
       (Net.gai_rc (Net.getaddrinfo os (HostPort.host hp) inet_stream_hints))).

Global Instance resolves_dec (os : Net.OS) (hp : HostPort.t) : Decision (resolves os hp).
Proof. unfold resolves. apply _. Defined.

(** * Properties *)

(** ** String helpers *)

Lemma append_cons (a : ascii) (h s : string) : String a h +:+ s = String a (h +:+ s).
Proof. reflexivity. Qed.

Lemma append_nil_l (s : string) : "" +:+ s = s.
Proof. reflexivity. Qed.

Lemma strcount_app (h s : string) (c : ascii) :
  strcount (h +:+ s) c = (strcount h c + strcount s c)%nat.
Proof.
  induction h as [|a h IH]; [reflexivity|].
  rewrite append_cons. simpl. rewrite IH. lia.
Qed.

Lemma SplitLimit1_absent (s : string) (d : ascii) :
  strcount s d = 0%nat → SplitLimit1 s d = (s, "").
Proof.
  induction s as [|a s IH]; simpl; [reflexivity|].
  destruct (decide (a = d)); [discriminate|].
  intros H. rewrite IH by lia. reflexivity.
Qed.

Lemma SplitLimit1_first (h rest : string) (d : ascii) :
  strcount h d = 0%nat → SplitLimit1 (h +:+ String d rest) d = (h, rest).
Proof.
  induction h as [|a h IH].
  - intros _. rewrite append_nil_l. simpl. rewrite decide_True by reflexivity. reflexivity.
  - simpl strcount. destruct (decide (a = d)); [discriminate|].
    intros H. rewrite append_cons. simpl. rewrite decide_False by assumption.
    rewrite IH by lia. reflexivity.
Qed.

Lemma digits_value_lower (s : string) (acc v : Z) :
  digits_value acc s = Some v → 0 ≤ acc → 0 ≤ v.
Proof.
  revert acc. induction s as [|a s IH]; simpl; intros acc H Hacc.
  - congruence.
  - destruct (Ascii.is_nat a) as [d|]; [|discriminate].
    apply (IH _ H). lia.
Qed.

Lemma SimpleAtoi_range (s : string) (v : Z) :
  SimpleAtoi s = Some v → 0 ≤ v ≤ UINT32_MAX.
Proof.
  unfold SimpleAtoi. destruct s as [|a s]; [discriminate|].
  destruct (digits_value 0 (String a s)) as [w|] eqn:E; [|discriminate].
  destruct (decide (w ≤ UINT32_MAX)); [|discriminate].
  intros [= <-]. split; [|assumption].
  apply (digits_value_lower _ _ _ E). lia.
Qed.

(** ** StripWhiteSpace *)

Lemma StripLeading_spec (s : string) :
  ∃ l, s = l +:+ StripLeading s ∧ all_space l = true
       ∧ starts_with_space (StripLeading s) = false.
Proof.
  induction s as [|a s (l & E & Hl & Hs)].
  - exists "". repeat split.
  - simpl. destruct (Ascii.is_space a) eqn:Ha.
    + exists (String a l). rewrite append_cons, <- E. simpl. rewrite Ha, Hl. repeat split.
      exact Hs.
    + exists "". simpl. rewrite Ha. repeat split.
Qed.

Lemma StripTrailing_spec (s : string) :
  ∃ r, s = StripTrailing s +:+ r ∧ all_space r = true
       ∧ ends_with_space (StripTrailing s) = false.
Proof.
  induction s as [|a s (r & E & Hr & Hs)].
  - exists "". repeat split.
  - simpl. destruct (StripTrailing s) as [|b t] eqn:Et.
    + rewrite append_nil_l in E. subst r.
      destruct (Ascii.is_space a) eqn:Ha.
      * exists (String a s). simpl. rewrite Ha, Hr. repeat split.
      * exists s. simpl. rewrite Ha. repeat split. exact Hr.
    + exists r. rewrite append_cons, <- E. repeat split; assumption.
Qed.

Lemma StripTrailing_start (s : string) :
  starts_with_space s = false → starts_with_space (StripTrailing s) = false.
Proof.
  destruct s as [|a s]; simpl; [reflexivity|]. intros Ha.
  destruct (StripTrailing s); [rewrite Ha|]; exact Ha.
Qed.

Lemma StripWhiteSpace_spec (s : string) :
  ∃ l r, s = l +:+ StripWhiteSpace s +:+ r
         ∧ all_space l = true ∧ all_space r = true
         ∧ starts_with_space (StripWhiteSpace s) = false
         ∧ ends_with_space (StripWhiteSpace s) = false.
Proof.
  unfold StripWhiteSpace.
  destruct (StripLeading_spec s) as (l & El & Hl & Hstart).
  destruct (StripTrailing_spec (StripLeading s)) as (r & Er & Hr & Hend).
  exists l, r. rewrite <- Er. repeat split; try assumption.
  apply StripTrailing_start, Hstart.
Qed.

(** ** HostPort::ParseString *)

Lemma ParseString_no_colon (self : HostPort.t) (str : string) (default_port : Z) :
  strcount str colon = 0%nat →
  HostPort.ParseString self str default_port =
    (Status_OK, HostPort.mk (StripWhiteSpace str) (default_port `mod` 65536)).
Proof.
  intros H. unfold HostPort.ParseString.
  rewrite (SplitLimit1_absent _ _ H), H. reflexivity.
Qed.

Lemma ParseString_colon (self : HostPort.t) (h rest : string) (default_port : Z) :
  strcount h colon = 0%nat →
  HostPort.ParseString self (h +:+ String colon rest) default_port =
    match SimpleAtoi rest with
    | Some n =>
        if decide (n > 65535) then (invalid_port (h +:+ String colon rest), self)
        else (Status_OK, HostPort.mk (StripWhiteSpace h) n)
    | None => (invalid_port (h +:+ String colon rest), self)
    end.
Proof.
  intros H. unfold HostPort.ParseString.
  rewrite (SplitLimit1_first _ _ _ H). cbn [fst snd].
  replace (Nat.eqb (strcount (h +:+ String colon rest) colon) 0) with false; cycle 1.
  { symmetry. apply Nat.eqb_neq. rewrite strcount_app.
    cbn [strcount]. rewrite decide_True by reflexivity. lia. }
  rewrite andb_false_r.
  destruct (SimpleAtoi rest) as [n|] eqn:E; [|reflexivity].
  destruct (decide (n > 65535)); [reflexivity|].
  apply SimpleAtoi_range in E.
  rewrite Z.mod_small by lia. reflexivity.
Qed.

(** C4.  [HostPort::ParseString] splits at the first colon only and strips
    white space from the host part.  Without a colon the port is the default
    port.  With a colon, the text after the first colon must be read by
    [SimpleAtoi] as a number of at most 65535, which becomes the port;
    otherwise the call fails with InvalidArgument ("Invalid port", carrying
    the input) and leaves the receiver as it was.  Stripping removes a run of
    white space at each end and nothing else.  The four sample inputs of the
    specification behave as listed. *)
Theorem ParseString_spec (self : HostPort.t) (str : string) (default_port : Z) :
  (∀ h : string, ∃ l r, h = l +:+ StripWhiteSpace h +:+ r
       ∧ all_space l = true ∧ all_space r = true
       ∧ starts_with_space (StripWhiteSpace h) = false
       ∧ ends_with_space (StripWhiteSpace h) = false)
  ∧ (strcount str colon = 0%nat → 0 ≤ default_port ≤ 65535 →
     HostPort.ParseString self str default_port =
       (Status_OK, HostPort.mk (StripWhiteSpace str) default_port))
  ∧ (∀ h rest : string,
       str = h +:+ String colon rest → strcount h colon = 0%nat →
       (∀ n, SimpleAtoi rest = Some n → n ≤ 65535 →
          HostPort.ParseString self str default_port =
            (Status_OK, HostPort.mk (StripWhiteSpace h) n))
       ∧ (SimpleAtoi rest = None ∨ (∃ n, SimpleAtoi rest = Some n ∧ 65535 < n) →
          HostPort.ParseString self str default_port =
            (STATUS2 kInvalidArgument "Invalid port" str, self)))
  ∧ HostPort.ParseString self "host:1234" 0 = (Status_OK, HostPort.mk "host" 1234)
  ∧ HostPort.ParseString self "host" 7000 = (Status_OK, HostPort.mk "host" 7000)
  ∧ HostPort.ParseString self "host:notanumber" 0 =
      (STATUS2 kInvalidArgument "Invalid port" "host:notanumber", self)
  ∧ HostPort.ParseString self "host:70000" 0 =
      (STATUS2 kInvalidArgument "Invalid port" "host:70000", self)
  ∧ HostPort.ParseString self "  host 	:80:81" 0 =
      (STATUS2 kInvalidArgument "Invalid port" "  host 	:80:81", self)
  ∧ HostPort.ParseString self "  host 	:80" 0 = (Status_OK, HostPort.mk "host" 80).
Proof.
  split; [exact StripWhiteSpace_spec|]. split; [|split].
  - intros H Hd. rewrite (ParseString_no_colon _ _ _ H).
    rewrite Z.mod_small by lia. reflexivity.
  - intros h rest -> H. rewrite (ParseString_colon _ _ _ _ H). split.
    + intros n -> Hn. cbv beta iota. rewrite decide_False by lia. reflexivity.
    + intros [-> | (n & -> & Hn)]; [reflexivity|].
      cbv beta iota. rewrite decide_True by lia. reflexivity.
  - repeat split; reflexivity.
Qed.

Lemma ParseString_spec_witness :
  HostPort.ParseString HostPort.empty "db1" 7100 = (Status_OK, HostPort.mk "db1" 7100)
  ∧ HostPort.ParseString HostPort.empty " db1 :9000" 7100 = (Status_OK, HostPort.mk "db1" 9000)
  ∧ HostPort.ParseString HostPort.empty "db1:4294967296" 7100 =
      (STATUS2 kInvalidArgument "Invalid port" "db1:4294967296", HostPort.empty)
  ∧ HostPort.ParseString HostPort.empty "db1:65536" 7100 =
      (STATUS2 kInvalidArgument "Invalid port" "db1:65536", HostPort.empty).
Proof.
  split; [|split; [|split]].
  - apply (proj1 (proj2 (ParseString_spec HostPort.empty "db1" 7100))); [reflexivity|lia].
  - refine (proj1 (proj1 (proj2 (proj2 (ParseString_spec HostPort.empty " db1 :9000" 7100)))
                     " db1 " "9000" _ _) 9000 _ _); [reflexivity|reflexivity|reflexivity|lia].
  - refine (proj2 (proj1 (proj2 (proj2 (ParseString_spec HostPort.empty "db1:4294967296" 7100)))
                     "db1" "4294967296" _ _) _); [reflexivity|reflexivity|].
    left. reflexivity.
  - refine (proj2 (proj1 (proj2 (proj2 (ParseString_spec HostPort.empty "db1:65536" 7100)))
                     "db1" "65536" _ _) _); [reflexivity|reflexivity|].
    right. exists 65536. split; [reflexivity|lia].
Defined.

Lemma ParseString_status (self : HostPort.t) (str : string) (default_port : Z) :
  fst (HostPort.ParseString self str default_port) = Status_OK
  ∨ HostPort.ParseString self str default_port = (invalid_port str, self).
Proof.
  unfold HostPort.ParseString.
  destruct (_ && _); [left; reflexivity|].
  destruct (SimpleAtoi _) as [n|]; [|right; reflexivity].
  destruct (decide (n > 65535)); [right|left]; reflexivity.
Qed.

Lemma parse_status_failed (default_port : Z) (s : string) :
  ok (parse_status default_port s) = false →
  parse_status default_port s = invalid_port s.
Proof.
  unfold parse_status.
  destruct (ParseString_status HostPort.empty s default_port) as [-> | ->];
    [discriminate|reflexivity].
Qed.

(** ** Splitting at commas *)

Lemma SplitAll_not_nil (s : string) (d : ascii) : SplitAll s d ≠ [].
Proof.
  destruct s as [|a s]; simpl; [discriminate|].
  destruct (decide (a = d)); [discriminate|].
  destruct (SplitAll s d); discriminate.
Qed.

Lemma SplitAll_join (s : string) (d : ascii) : join d (SplitAll s d) = s.
Proof.
  induction s as [|a s IH]; [reflexivity|]. simpl.
  pose proof (SplitAll_not_nil s d) as Hnil.
  destruct (decide (a = d)) as [->|Hne].
  - destruct (SplitAll s d) as [|p ps] eqn:E; [done|].
    cbn [join]. rewrite append_nil_l. f_equal. exact IH.
  - destruct (SplitAll s d) as [|p ps] eqn:E; [done|].
    destruct ps as [|q qs]; cbn [join] in *; [congruence|].
    rewrite append_cons. f_equal. exact IH.
Qed.

Lemma SplitAll_no_delim (s : string) (d : ascii) :
  Forall (λ p, strcount p d = 0%nat) (SplitAll s d).
Proof.
  induction s as [|a s IH]; simpl.
  - repeat constructor.
  - destruct (decide (a = d)) as [->|Hne].
    + constructor; [reflexivity|exact IH].
    + destruct (SplitAll s d) as [|p ps]; [repeat constructor; simpl; rewrite decide_False by done; done|].
      inversion IH; subst. constructor; [|assumption].
      simpl. rewrite decide_False by done. assumption.
Qed.

Lemma SplitSkipEmpty_pieces (s : string) (d : ascii) :
  Forall (λ p, p ≠ "" ∧ strcount p d = 0%nat) (SplitSkipEmpty s d).
Proof.
  unfold SplitSkipEmpty. apply Forall_forall. intros p Hp.
  apply list_elem_of_filter in Hp as [Hne Hin]. split.
  - intros ->. discriminate.
  - pose proof (SplitAll_no_delim s d) as H.
    rewrite Forall_forall in H. exact (H _ Hin).
Qed.

(** ** HostPort::ParseStrings *)

Lemma ParseStrings_loop_ok (default_port : Z) (segs : list string) (acc : list HostPort.t) :
  Forall (parses default_port) segs →
  HostPort.ParseStrings_loop segs default_port acc =
    (Status_OK, acc ++ map (parse_value default_port) segs).
Proof.
  revert acc. induction segs as [|s segs IH]; intros acc H; simpl.
  - rewrite app_nil_r. reflexivity.
  - inversion H as [|? ? Hs Hrest]; subst.
    unfold parses, parse_status in Hs.
    destruct (HostPort.ParseString HostPort.empty s default_port) as [st hp] eqn:E.
    simpl in Hs. rewrite Hs. rewrite (IH _ Hrest).
    rewrite <- app_assoc. unfold parse_value at 2. rewrite E. reflexivity.
Qed.

Lemma ParseStrings_loop_fail (default_port : Z) (pre : list string) (bad : string)
    (post : list string) (acc : list HostPort.t) :
  Forall (parses default_port) pre →
  ¬ parses default_port bad →
  HostPort.ParseStrings_loop (pre ++ bad :: post) default_port acc =
    (invalid_port bad, acc ++ map (parse_value default_port) pre).
Proof.
  revert acc. induction pre as [|s pre IH]; intros acc H Hbad; simpl.
  - rewrite app_nil_r.
    unfold parses in Hbad. apply not_true_is_false in Hbad.
    pose proof (parse_status_failed _ _ Hbad) as Hst. unfold parse_status in *.
    destruct (HostPort.ParseString HostPort.empty bad default_port) as [st hp].
    simpl in *. rewrite Hbad. congruence.
  - inversion H as [|? ? Hs Hrest]; subst.
    unfold parses, parse_status in Hs.
    destruct (HostPort.ParseString HostPort.empty s default_port) as [st hp] eqn:E.
    simpl in Hs. rewrite Hs. rewrite (IH _ Hrest Hbad).
    rewrite <- app_assoc. unfold parse_value at 2. rewrite E. reflexivity.
Qed.

(** C9.  [HostPort::ParseStrings] parses the non-empty pieces between commas
    in input order.  When a piece fails to parse, the status of the first
    such piece is returned and the caller's vector keeps the value it had;
    when every piece parses, the vector becomes the parsed endpoints, in the
    order of the pieces. *)
Theorem ParseStrings_spec (comma_sep_addrs : string) (default_port : Z)
    (res : list HostPort.t) :
  let segs := SplitSkipEmpty comma_sep_addrs comma in
  (∃ pieces, join comma pieces = comma_sep_addrs
             ∧ Forall (λ p, strcount p comma = 0%nat) pieces
             ∧ segs = filter (λ p, p ≠ "") pieces)
  ∧ (∀ pre bad post, segs = pre ++ bad :: post →
       Forall (parses default_port) pre → ¬ parses default_port bad →
       HostPort.ParseStrings comma_sep_addrs default_port res =
         (STATUS2 kInvalidArgument "Invalid port" bad, res))
  ∧ (Forall (parses default_port) segs →
       HostPort.ParseStrings comma_sep_addrs default_port res =
         (Status_OK, map (parse_value default_port) segs))
  ∧ HostPort.ParseStrings "a:1,b:2" 0 res =
      (Status_OK, [HostPort.mk "a" 1; HostPort.mk "b" 2])
  ∧ HostPort.ParseStrings ",a:1,,b:2," 0 res =
      (Status_OK, [HostPort.mk "a" 1; HostPort.mk "b" 2])
  ∧ HostPort.ParseStrings "a:1,b:x,c:y" 0 res =
      (STATUS2 kInvalidArgument "Invalid port" "b:x", res).
Proof.
  intros segs. split; [|split; [|split]].
  - exists (SplitAll comma_sep_addrs comma).
    split; [apply SplitAll_join|]. split; [apply SplitAll_no_delim|].
    unfold segs, SplitSkipEmpty. apply list_filter_iff.
    intros [|a p]; simpl; split; congruence.
  - intros pre bad post E Hpre Hbad. unfold HostPort.ParseStrings.
    fold segs. rewrite E, (ParseStrings_loop_fail _ _ _ _ _ Hpre Hbad).
    reflexivity.
  - intros Hall. unfold HostPort.ParseStrings. fold segs.
    rewrite (ParseStrings_loop_ok _ _ _ Hall). reflexivity.
  - repeat split; reflexivity.
Qed.

Lemma ParseStrings_spec_witness :
  HostPort.ParseStrings "h1:1000,,h2:2000" 0 [HostPort.empty] =
    (Status_OK, [HostPort.mk "h1" 1000; HostPort.mk "h2" 2000])
  ∧ HostPort.ParseStrings "h1:1000,h2:2000x,h3:" 0 [HostPort.empty] =
    (STATUS2 kInvalidArgument "Invalid port" "h2:2000x", [HostPort.empty]).
Proof.
  split.
  - refine (proj1 (proj2 (proj2 (ParseStrings_spec "h1:1000,,h2:2000" 0 [HostPort.empty]))) _).
    repeat constructor.
  - refine (proj1 (proj2 (ParseStrings_spec "h1:1000,h2:2000x,h3:" 0 [HostPort.empty]))
              ["h1:1000"] "h2:2000x" ["h3:"] _ _ _).
    + reflexivity.
    + repeat constructor.
    + intros H. discriminate H.
Defined.

(** ** HostPort::RemoveAndGetHostPortList *)

Lemma first_failure {A : Type} (P : A → Prop) `{∀ x, Decision (P x)} (l : list A) :
  Forall P l ∨ ∃ pre bad post, l = pre ++ bad :: post ∧ Forall P pre ∧ ¬ P bad.
Proof.
  induction l as [|x l IH]; [left; constructor|].
  destruct (decide (P x)) as [Hx|Hx].
  - destruct IH as [IH | (pre & bad & post & -> & Hpre & Hbad)].
    + left. constructor; assumption.
    + right. exists (x :: pre), bad, post. repeat split; [constructor|]; assumption.
  - right. exists [], x, l. repeat split; [constructor|assumption].
Qed.

Lemma Remove_inner_app (remove : Sockaddr.t) (default_port : Z) (l1 l2 : list string)
    (st : bool * list HostPort.t) :
  HostPort.Remove_inner remove (l1 ++ l2) default_port st =
    let '(s, st') := HostPort.Remove_inner remove l1 default_port st in
    if ok s then HostPort.Remove_inner remove l2 default_port st' else (s, st').
Proof.
  revert st. induction l1 as [|x l1 IH]; intros st; simpl; [reflexivity|].
  destruct (HostPort.ParseString HostPort.empty x default_port) as [s hp].
  destruct (ok s) eqn:Hs.
  - destruct (HostPort.equals hp remove); apply IH.
  - rewrite Hs. reflexivity.
Qed.

Lemma Remove_outer_flat (remove : Sockaddr.t) (default_port : Z) (multiple : list string)
    (st : bool * list HostPort.t) :
  HostPort.Remove_outer remove multiple default_port st =
    HostPort.Remove_inner remove (flat_segments multiple) default_port st.
Proof.
  revert st. induction multiple as [|m multiple IH]; intros st; [reflexivity|].
  unfold flat_segments. simpl. fold (flat_segments multiple).
  rewrite Remove_inner_app.
  destruct (HostPort.Remove_inner remove (SplitSkipEmpty m comma) default_port st) as [s st'].
  destruct (ok s); [apply IH|reflexivity].
Qed.

Lemma Remove_inner_ok (remove : Sockaddr.t) (default_port : Z) (segs : list string)
    (st : bool * list HostPort.t) :
  Forall (parses default_port) segs →
  HostPort.Remove_inner remove segs default_port st =
    (Status_OK,
     (fst st || existsb (is_target remove) (map (parse_value default_port) segs),
      snd st ++ kept remove (map (parse_value default_port) segs))).
Proof.
  revert st. induction segs as [|x segs IH]; intros [f r] H; simpl.
  - rewrite orb_false_r, app_nil_r. reflexivity.
  - inversion H as [|? ? Hx Hrest]; subst.
    unfold parses, parse_status in Hx. unfold parse_value at 1 3.
    destruct (HostPort.ParseString HostPort.empty x default_port) as [s hp].
    simpl in Hx. rewrite Hx. simpl. unfold is_target at 1, kept.
    destruct (HostPort.equals hp remove) eqn:E.
    + rewrite (IH _ Hrest). simpl. rewrite orb_true_r.
      rewrite filter_cons_False; [reflexivity|]. unfold is_target. rewrite E. discriminate.
    + rewrite (IH _ Hrest). simpl.
      rewrite filter_cons_True by exact E. rewrite <- app_assoc. reflexivity.
Qed.

Lemma Remove_inner_fail (remove : Sockaddr.t) (default_port : Z) (pre : list string)
    (bad : string) (post : list string) (st : bool * list HostPort.t) :
  Forall (parses default_port) pre → ¬ parses default_port bad →
  HostPort.Remove_inner remove (pre ++ bad :: post) default_port st =
    (invalid_port bad,
     (fst st || existsb (is_target remove) (map (parse_value default_port) pre),
      snd st ++ kept remove (map (parse_value default_port) pre))).
Proof.
  intros Hpre Hbad. rewrite Remove_inner_app, (Remove_inner_ok _ _ _ _ Hpre).
  cbn [ok code Status_OK]. simpl.
  unfold parses in Hbad. apply not_true_is_false in Hbad.
  pose proof (parse_status_failed _ _ Hbad) as Hst. unfold parse_status in *.
  destruct (HostPort.ParseString HostPort.empty bad default_port) as [s hp].
  simpl in *. rewrite Hbad. subst s. reflexivity.
Qed.

Lemma kept_all (remove : Sockaddr.t) (hps : list HostPort.t) :
  existsb (is_target remove) hps = false → kept remove hps = hps.
Proof.
  induction hps as [|hp hps IH]; simpl; [reflexivity|].
  intros H. apply orb_false_iff in H as [H1 H2]. unfold kept.
  rewrite filter_cons_True by exact H1. f_equal. exact (IH H2).
Qed.

(** What the call does when every segment parses. *)
Lemma RemoveAndGetHostPortList_parsed (remove : Sockaddr.t) (multiple : list string)
    (default_port : Z) (res0 : list HostPort.t) :
  let parsed := map (parse_value default_port) (flat_segments multiple) in
  Forall (parses default_port) (flat_segments multiple) →
  HostPort.RemoveAndGetHostPortList remove multiple default_port res0 =
    if existsb (is_target remove) parsed
    then HostPort.mkRemove Status_OK (res0 ++ kept remove parsed) []
    else HostPort.mkRemove (STATUS1 kNotFound (not_found_message remove))
           (res0 ++ kept remove parsed)
           [HostPort.Remove_log_loop multiple "Current list of master addresses: "].
Proof.
  intros parsed H. unfold HostPort.RemoveAndGetHostPortList.
  rewrite Remove_outer_flat, (Remove_inner_ok _ _ _ _ H).
  cbn [fst snd ok code Status_OK orb]. fold parsed.
  destruct (existsb (is_target remove) parsed); reflexivity.
Qed.

(** What the call does when some segment does not parse. *)
Lemma RemoveAndGetHostPortList_failed (remove : Sockaddr.t) (multiple : list string)
    (default_port : Z) (res0 : list HostPort.t) (pre : list string) (bad : string)
    (post : list string) :
  flat_segments multiple = pre ++ bad :: post →
  Forall (parses default_port) pre → ¬ parses default_port bad →
  HostPort.RemoveAndGetHostPortList remove multiple default_port res0 =
    HostPort.mkRemove (invalid_port bad)
      (res0 ++ kept remove (map (parse_value default_port) pre)) [].
Proof.
  intros E Hpre Hbad. unfold HostPort.RemoveAndGetHostPortList.
  rewrite Remove_outer_flat, E, (Remove_inner_fail _ _ _ _ _ _ Hpre Hbad).
  reflexivity.
Qed.

(** C2 (as stated) fails: on an input without the target the returned
    NotFound status names the target only; neither of the two input strings
    occurs in its message, and the second message is empty. *)
Lemma NotFound_message_omits_inputs :
  let inputs := ["hostA:7100,hostB:7100"; "hostC:7100"] in
  let r := HostPort.RemoveAndGetHostPortList (Sockaddr.mk 16909060 80) inputs 7100 [] in
  code (HostPort.status r) = kNotFound
  ∧ message (HostPort.status r) = "Cannot find 1.2.3.4:80 in master addresses."
  ∧ message2 (HostPort.status r) = ""
  ∧ ¬ enumerates (message (HostPort.status r)) inputs
  ∧ Forall (λ a, contains (message (HostPort.status r)) a = false) inputs.
Proof.
  cbv zeta. repeat split.
  - intros H. inversion H as [|? ? H1 _]. vm_compute in H1. discriminate H1.
  - repeat constructor.
Qed.

(** C2 (amended).  When every segment parses and no parsed endpoint equals
    the target, [RemoveAndGetHostPortList] fails with NotFound; the status
    carries the message "Cannot find <target> in master addresses.", built
    from the target alone, with no second message and no error number. *)
Theorem RemoveAndGetHostPortList_NotFound (remove : Sockaddr.t) (multiple : list string)
    (default_port : Z) (res0 : list HostPort.t) :
  Forall (parses default_port) (flat_segments multiple) →
  Forall (λ s, is_target remove (parse_value default_port s) = false)
         (flat_segments multiple) →
  HostPort.status (HostPort.RemoveAndGetHostPortList remove multiple default_port res0) =
    mkStatus kNotFound
      ("Cannot find " +:+ Sockaddr.ToString remove +:+ " in master addresses.") "" None.
Proof.
  intros Hp Hn. rewrite (RemoveAndGetHostPortList_parsed _ _ _ _ Hp).
  replace (existsb _ _) with false; [reflexivity|].
  symmetry. apply not_true_is_false. intros H.
  apply existsb_exists in H as (hp & Hin & Hhp).
  apply in_map_iff in Hin as (s & <- & Hs).
  rewrite Forall_forall in Hn. apply list_elem_of_In in Hs.
  rewrite (Hn _ Hs) in Hhp. discriminate.
Qed.

Lemma RemoveAndGetHostPortList_NotFound_witness :
  HostPort.status
    (HostPort.RemoveAndGetHostPortList (Sockaddr.mk 167772161 7100)
       ["m1:7100,m2:7100"; "m3"] 7100 []) =
  mkStatus kNotFound "Cannot find 10.0.0.1:7100 in master addresses." "" None.
Proof.
  apply (RemoveAndGetHostPortList_NotFound (Sockaddr.mk 167772161 7100)
           ["m1:7100,m2:7100"; "m3"] 7100 []).
  - repeat constructor.
  - repeat constructor.
Defined.

(** C3 (as stated) fails: with the target written twice in the input, no
    occurrence is left in the result, which differs from the removal of the
    first occurrence only. *)
Lemma RemoveAndGetHostPortList_not_first_only :
  let remove := Sockaddr.mk 16909060 80 in
  let inputs := ["1.2.3.4:80,5.6.7.8:80"; "1.2.3.4:80"] in
  let parsed := map (parse_value 0) (flat_segments inputs) in
  let r := HostPort.RemoveAndGetHostPortList remove inputs 0 [] in
  length (filter (λ hp, is_target remove hp = true) parsed) = 2%nat
  ∧ HostPort.status r = Status_OK
  ∧ HostPort.res r = [HostPort.mk "5.6.7.8" 80]
  ∧ remove_first remove parsed = [HostPort.mk "5.6.7.8" 80; HostPort.mk "1.2.3.4" 80]
  ∧ ¬ (∃ hp, hp ∈ HostPort.res r ∧ is_target remove hp = true).
Proof.
  cbv zeta. split; [reflexivity|]. split; [reflexivity|].
  split; [reflexivity|]. split; [reflexivity|].
  intros (hp & Hin & Hhp).
  change (hp ∈ [HostPort.mk "5.6.7.8" 80]) in Hin.
  apply list_elem_of_singleton in Hin. subst hp. vm_compute in Hhp. discriminate Hhp.
Qed.

(** C3 (amended).  When every segment parses, [RemoveAndGetHostPortList]
    appends to the caller's vector the parsed endpoints that differ from the
    target, in input order: every endpoint equal to the target is left out,
    however often it occurs, and the status is OK exactly when there was at
    least one. *)
Theorem RemoveAndGetHostPortList_removes_all (remove : Sockaddr.t)
    (multiple : list string) (default_port : Z) (res0 : list HostPort.t) :
  let parsed := map (parse_value default_port) (flat_segments multiple) in
  let r := HostPort.RemoveAndGetHostPortList remove multiple default_port res0 in
  Forall (parses default_port) (flat_segments multiple) →
  HostPort.res r = res0 ++ filter (λ hp, HostPort.equals hp remove = false) parsed
  ∧ (∀ hp, hp ∈ parsed → HostPort.equals hp remove = true →
       hp ∉ filter (λ hp, HostPort.equals hp remove = false) parsed)
  ∧ (HostPort.status r = Status_OK ↔
       ∃ hp, hp ∈ parsed ∧ HostPort.equals hp remove = true).
Proof.
  intros parsed r Hp. unfold r.
  rewrite (RemoveAndGetHostPortList_parsed _ _ _ _ Hp). fold parsed.
  split; [|split].
  - destruct (existsb _ _); reflexivity.
  - intros hp _ Heq Hin. apply list_elem_of_filter in Hin as [Hne _]. congruence.
  - destruct (existsb (is_target remove) parsed) eqn:E; simpl.
    + split; [intros _|reflexivity].
      apply existsb_exists in E as (hp & Hin & Hhp).
      exists hp. split; [apply list_elem_of_In; exact Hin|exact Hhp].
    + split; [discriminate|]. intros (hp & Hin & Hhp).
      assert (existsb (is_target remove) parsed = true) as E'.
      { apply existsb_exists. exists hp. split; [apply list_elem_of_In; exact Hin|exact Hhp]. }
      congruence.
Qed.

Lemma RemoveAndGetHostPortList_removes_all_witness :
  HostPort.res
    (HostPort.RemoveAndGetHostPortList (Sockaddr.mk 167772161 7100)
       ["10.0.0.1:7100,m2:7100"; "10.0.0.1,m3"] 7100 [HostPort.empty]) =
  [HostPort.empty; HostPort.mk "m2" 7100; HostPort.mk "m3" 7100].
Proof.
  refine (proj1 (RemoveAndGetHostPortList_removes_all (Sockaddr.mk 167772161 7100)
           ["10.0.0.1:7100,m2:7100"; "10.0.0.1,m3"] 7100 [HostPort.empty] _)).
  repeat constructor.
Defined.

(** C10.  When [RemoveAndGetHostPortList] returns NotFound, every segment of
    the flattened input has parsed, none equals the target, and the caller's
    vector has grown by all the parsed endpoints, in order.  By contrast
    [ParseStrings] leaves the caller's vector as it was whenever it fails. *)
Theorem RemoveAndGetHostPortList_NotFound_populates (remove : Sockaddr.t)
    (multiple : list string) (default_port : Z) (res0 : list HostPort.t) :
  let r := HostPort.RemoveAndGetHostPortList remove multiple default_port res0 in
  (code (HostPort.status r) = kNotFound →
     Forall (parses default_port) (flat_segments multiple)
     ∧ Forall (λ s, HostPort.equals (parse_value default_port s) remove = false)
              (flat_segments multiple)
     ∧ HostPort.res r = res0 ++ map (parse_value default_port) (flat_segments multiple))
  ∧ (∀ comma_sep_addrs,
       ok (fst (HostPort.ParseStrings comma_sep_addrs default_port res0)) = false →
       snd (HostPort.ParseStrings comma_sep_addrs default_port res0) = res0).
Proof.
  intros r. split.
  - unfold r.
    destruct (first_failure (parses default_port) (flat_segments multiple))
      as [Hp | (pre & bad & post & E & Hpre & Hbad)].
    + rewrite (RemoveAndGetHostPortList_parsed _ _ _ _ Hp).
      destruct (existsb _ _) eqn:Ex; simpl; [discriminate|]. intros _.
      split; [exact Hp|]. split.
      * apply Forall_forall. intros s Hs. apply not_true_is_false. intros Heq.
        assert (existsb (is_target remove)
                  (map (parse_value default_port) (flat_segments multiple)) = true) as E'.
        { apply existsb_exists. exists (parse_value default_port s). split; [|exact Heq].
          apply in_map. apply list_elem_of_In. exact Hs. }
        congruence.
      * rewrite (kept_all _ _ Ex). reflexivity.
    + rewrite (RemoveAndGetHostPortList_failed _ _ _ _ _ _ _ E Hpre Hbad).
      simpl. discriminate.
  - intros c. unfold HostPort.ParseStrings.
    destruct (HostPort.ParseStrings_loop _ _ _) as [s hps].
    destruct (ok s) eqn:Hs; simpl; [discriminate|reflexivity].
Qed.

Lemma RemoveAndGetHostPortList_NotFound_populates_witness :
  HostPort.res
    (HostPort.RemoveAndGetHostPortList (Sockaddr.mk 167772161 7100)
       ["m1:7100,m2:7101"; "m3"] 7100 [HostPort.empty]) =
  [HostPort.empty; HostPort.mk "m1" 7100; HostPort.mk "m2" 7101; HostPort.mk "m3" 7100]
  ∧ snd (HostPort.ParseStrings "m1:7100,m2:x" 7100 [HostPort.empty]) = [HostPort.empty].
Proof.
  split.
  - refine (proj2 (proj2 (proj1 (RemoveAndGetHostPortList_NotFound_populates
             (Sockaddr.mk 167772161 7100) ["m1:7100,m2:7101"; "m3"] 7100 [HostPort.empty]) _))).
    reflexivity.
  - refine (proj2 (RemoveAndGetHostPortList_NotFound_populates
             (Sockaddr.mk 167772161 7100) ["m1:7100,m2:7101"; "m3"] 7100 [HostPort.empty])
             "m1:7100,m2:x" _).
    reflexivity.
Defined.

(** ** ParseAddressList *)

Lemma filter_all {A : Type} (P : A → Prop) `{∀ x, Decision (P x)} (l : list A) :
  (∀ x, P x) → filter P l = l.
Proof.
  intros HP. induction l as [|x l IH]; [reflexivity|].
  rewrite filter_cons_True by apply HP. f_equal. exact IH.
Qed.

Lemma insert_unique_app (l1 l2 : list Sockaddr.t) (st : gset Sockaddr.t * list Sockaddr.t) :
  Net.insert_unique (l1 ++ l2) st = Net.insert_unique l2 (Net.insert_unique l1 st).
Proof.
  revert st. induction l1 as [|x l1 IH]; intros st; simpl; [reflexivity|].
  destruct (decide (x ∈ st.1)); apply IH.
Qed.

Lemma insert_unique_spec (l : list Sockaddr.t) (u : gset Sockaddr.t) (v : list Sockaddr.t) :
  Net.insert_unique l (u, v) =
    (list_to_set l ∪ u, v ++ filter (λ y, y ∉ u) (first_occurrences l)).
Proof.
  revert u v. induction l as [|x l IH]; intros u v; simpl.
  - rewrite app_nil_r. f_equal. set_solver.
  - destruct (decide (x ∈ u)) as [Hx|Hx].
    + rewrite IH. f_equal; [set_solver|]. f_equal.
      rewrite filter_cons_False by (intros H; exact (H Hx)).
      rewrite list_filter_filter. apply list_filter_iff.
      intros y. split; [|tauto]. intros Hy. split; [exact Hy|]. intros ->. exact (Hy Hx).
    + rewrite IH. f_equal; [set_solver|].
      rewrite filter_cons_True by exact Hx.
      rewrite <- app_assoc. simpl. do 2 f_equal.
      rewrite list_filter_filter. apply list_filter_iff.
      intros y. set_solver.
Qed.

Lemma first_occurrences_elem (l : list Sockaddr.t) (a : Sockaddr.t) :
  a ∈ first_occurrences l ↔ a ∈ l.
Proof.
  induction l as [|x l IH]; simpl; [reflexivity|].
  rewrite !elem_of_cons, list_elem_of_filter, IH.
  destruct (decide (a = x)); tauto.
Qed.

Lemma first_occurrences_NoDup (l : list Sockaddr.t) : NoDup (first_occurrences l).
Proof.
  induction l as [|x l IH]; simpl; constructor.
  - rewrite list_elem_of_filter. tauto.
  - apply NoDup_filter. exact IH.
Qed.

Lemma first_occurrences_app (p q : list Sockaddr.t) :
  first_occurrences (p ++ q) =
    first_occurrences p ++ filter (λ y, y ∉ p) (first_occurrences q).
Proof.
  induction p as [|x p IH]; simpl.
  - symmetry. apply filter_all. intros y. apply not_elem_of_nil.
  - rewrite IH, filter_app. do 2 f_equal.
    rewrite list_filter_filter. apply list_filter_iff. intros y. set_solver.
Qed.

Lemma ResolveAddresses_resolved (os : Net.OS) (hp : HostPort.t) (v : list Sockaddr.t) :
  resolves os hp →
  Net.ResolveAddresses os hp (Some v) = (Status_OK, Some (v ++ resolved os hp)).
Proof.
  unfold resolves, Net.ResolveAddresses. fold inet_stream_hints. intros ->.
  rewrite decide_False by (intros H; exact (H eq_refl)). reflexivity.
Qed.

Lemma ParseAddressList_loop_resolved (os : Net.OS) (hps : list HostPort.t)
    (st : gset Sockaddr.t * list Sockaddr.t) :
  Forall (resolves os) hps →
  Net.ParseAddressList_loop os hps st =
    (Status_OK, Net.insert_unique (concat (map (resolved os) hps)) st).
Proof.
  revert st. induction hps as [|hp hps IH]; intros st H; simpl; [reflexivity|].
  inversion H as [|? ? Hhp Hrest]; subst.
  rewrite (ResolveAddresses_resolved _ _ _ Hhp). simpl.
  rewrite (IH _ Hrest), insert_unique_app. reflexivity.
Qed.

(** C5.  When the list parses and every host resolves, [ParseAddressList]
    succeeds and appends to the caller's vector the resolved (IP, port)
    addresses in the order in which each is first seen, later copies being
    dropped: the appended sequence has no duplicates, has the same members as
    the sequence of all resolutions, and the part of it produced by a prefix
    of the resolutions is not changed by what follows. *)
Theorem ParseAddressList_dedup (os : Net.OS) (addr_list : string) (default_port : Z)
    (addresses : list Sockaddr.t) (host_ports : list HostPort.t) :
  let all := concat (map (resolved os) host_ports) in
  HostPort.ParseStrings addr_list default_port [] = (Status_OK, host_ports) →
  Forall (resolves os) host_ports →
  Net.ParseAddressList os addr_list default_port addresses =
    (Status_OK, addresses ++ first_occurrences all)
  ∧ NoDup (first_occurrences all)
  ∧ (∀ a, a ∈ first_occurrences all ↔ a ∈ all)
  ∧ (∀ p q, all = p ++ q →
       first_occurrences all =
         first_occurrences p ++ filter (λ y, y ∉ p) (first_occurrences q)).
Proof.
  intros all Hparse Hres. split; [|split; [|split]].
  - unfold Net.ParseAddressList. rewrite Hparse. cbn [ok code Status_OK].
    rewrite (ParseAddressList_loop_resolved _ _ _ Hres), insert_unique_spec.
    fold all. cbn [snd]. do 2 f_equal.
    apply filter_all. intros y. apply not_elem_of_empty.
  - apply first_occurrences_NoDup.
  - apply first_occurrences_elem.
  - intros p q ->. apply first_occurrences_app.
Qed.

Lemma ParseAddressList_dedup_witness :
  Net.ParseAddressList os_db "db:7100,twice:7100,10.0.0.1:7100,db" 7100 [] =
    (Status_OK, [Sockaddr.mk 167772161 7100; Sockaddr.mk 167772162 7100]).
Proof.
  refine (proj1 (ParseAddressList_dedup os_db "db:7100,twice:7100,10.0.0.1:7100,db" 7100 []
            [HostPort.mk "db" 7100; HostPort.mk "twice" 7100;
             HostPort.mk "10.0.0.1" 7100; HostPort.mk "db" 7100] _ _)).
  - reflexivity.
  - repeat constructor.
Defined.

(** ** Name-resolution failures *)

(** C8 (as stated) fails: on a host where the lookup of a name returns
    EAI_NONAME, the NetworkError of [ResolveAddresses] has the resolver's
    text but no error code at all, and the NetworkError of [GetFQDN] reports
    the text and number of [errno], here 0, not those of the resolver. *)
Lemma NetworkError_without_resolver_code :
  let st1 := fst (Net.ResolveAddresses os_no_names (HostPort.mk "nohost" 80) None) in
  let st2 := fst (Net.GetFQDN os_no_names "") in
  Net.gai_rc (Net.getaddrinfo os_no_names "nohost" inet_stream_hints) = -2
  ∧ Net.gai_rc (Net.getaddrinfo os_no_names "localhost" canonname_hints) = -2
  ∧ st1 = mkStatus kNetworkError "Unable to resolve address 'nohost'"
            "Name or service not known" None
  ∧ st2 = mkStatus kNetworkError "Unable to lookup FQDN" "Success" (Some 0)
  ∧ ¬ carries_resolver_error os_no_names (-2) st1
  ∧ ¬ carries_resolver_error os_no_names (-2) st2.
Proof.
  cbv zeta. repeat split.
  - intros [_ H]. discriminate H.
  - intros [H _]. discriminate H.
Qed.

(** C8 (amended).  A failed resolver call in [ResolveAddresses] gives a
    NetworkError whose message names the host and whose second message is the
    resolver's native error text for the returned code; it carries no error
    number, and the output vector is left alone.  [GetFQDN] fails with
    NetworkError when the host name cannot be determined, with the text and
    number of the OS error, and with NetworkError "Unable to lookup FQDN"
    when the canonical-name lookup fails. *)
Theorem resolution_failure_status (os : Net.OS) :
  (∀ (self : HostPort.t) (addresses : option (list Sockaddr.t)),
     let rc := Net.gai_rc (Net.getaddrinfo os (HostPort.host self) inet_stream_hints) in
     rc ≠ 0 →
     Net.ResolveAddresses os self addresses =
       (mkStatus kNetworkError
          ("Unable to resolve address '" +:+ HostPort.host self +:+ "'")
          (Net.gai_strerror os rc) None,
        addresses))
  ∧ (∀ hostname : string,
       Net.gethostname_ret os ≠ 0 →
       Net.GetFQDN os hostname =
         (mkStatus kNetworkError "Unable to determine local hostname"
            (Net.ErrnoToString os (Net.gethostname_errno os))
            (Some (Net.gethostname_errno os)),
          hostname))
  ∧ (∀ hostname : string,
       Net.gethostname_ret os = 0 →
       Net.gai_rc (Net.getaddrinfo os (Net.gethostname_name os) canonname_hints) ≠ 0 →
       code (fst (Net.GetFQDN os hostname)) = kNetworkError
       ∧ message (fst (Net.GetFQDN os hostname)) = "Unable to lookup FQDN"
       ∧ snd (Net.GetFQDN os hostname) = Net.gethostname_name os).
Proof.
  split; [|split].
  - intros self addresses rc Hrc. unfold Net.ResolveAddresses.
    fold inet_stream_hints. fold rc. rewrite decide_True by exact Hrc. reflexivity.
  - intros hostname Hret. unfold Net.GetFQDN, Net.GetHostname.
    rewrite decide_True by exact Hret. reflexivity.
  - intros hostname Hret Hrc. unfold Net.GetFQDN, Net.GetHostname.
    rewrite decide_False by (intros H; exact (H Hret)).
    cbn [ok code Status_OK]. fold canonname_hints.
    rewrite decide_True by exact Hrc. repeat split.
Qed.

Lemma resolution_failure_status_witness :
  Net.ResolveAddresses os_db (HostPort.mk "elsewhere" 7100) (Some []) =
    (mkStatus kNetworkError "Unable to resolve address 'elsewhere'"
       "Name or service not known" None, Some [])
  ∧ code (fst (Net.GetFQDN os_no_names "")) = kNetworkError.
Proof.
  split.
  - refine (proj1 (resolution_failure_status os_db) (HostPort.mk "elsewhere" 7100) (Some []) _).
    discriminate.
  - refine (proj1 (proj2 (proj2 (resolution_failure_status os_no_names)) "" _ _)).
    + reflexivity.
    + discriminate.
Defined.

(** ** GetFreePort *)

Lemma random_port_of_range (next : Z) :
  Alloc.kMinPort ≤ Alloc.random_port_of next ≤ Alloc.kMaxPort.
Proof.
  unfold Alloc.random_port_of, Alloc.kMinPort, Alloc.kMaxPort.
  change (65535 - 40000 + 1) with 25536.
  pose proof (Z.mod_pos_bound (next `mod` 2 ^ 32) 25536 ltac:(lia)) as H.
  rewrite (Z.mod_small (40000 + _) (2 ^ 32)) by lia.
  rewrite Z.mod_small by lia. lia.
Qed.

Lemma loop_post_shift (env : Alloc.PortEnv) (held : gset string) (n i : nat)
    (trace : list Alloc.Attempt) (a : Alloc.Attempt) (r : Alloc.Run) :
  attempt_succeeds env held i = false → failed a →
  loop_post env held n (S i) (trace ++ [a]) r →
  loop_post env held (S n) i trace r.
Proof.
  intros Hi Ha [(k & fails & Hk & Hlen & Hf & Hbefore & Hat & ->)
               | (Hall & fails & Hlen & Hf & ->)].
  - left. exists (S k), (a :: fails).
    replace (i + S k)%nat with (S i + k)%nat by lia.
    split; [lia|]. split; [simpl; lia|]. split; [constructor; assumption|].
    split; [|split; [exact Hat|]].
    + intros [|j] Hj; [rewrite Nat.add_0_r; exact Hi|].
      replace (i + S j)%nat with (S i + j)%nat by lia. apply Hbefore. lia.
    + rewrite <- app_assoc. reflexivity.
  - right. split.
    + intros [|j] Hj; [rewrite Nat.add_0_r; exact Hi|].
      replace (i + S j)%nat with (S i + j)%nat by lia. apply Hall. lia.
    + exists (a :: fails). split; [simpl; lia|]. split; [constructor; assumption|].
      rewrite <- app_assoc. reflexivity.
Qed.

(** An iteration that did not obtain the lock hands over to the next. *)
Ltac next_iteration IH :=
  eapply loop_post_shift; [ | | apply IH]; [ | reflexivity].

Lemma GetFreePort_loop_post (env : Alloc.PortEnv) (held : gset string) (n i : nat)
    (trace : list Alloc.Attempt) :
  loop_post env held n i trace (Alloc.GetFreePort_loop env n i held trace).
Proof.
  revert i trace. induction n as [|n IH]; intros i trace.
  - right. split; [intros j Hj; lia|]. exists []. rewrite app_nil_r. repeat split. constructor.
  - cbn [Alloc.GetFreePort_loop]. fold (candidate env i).
    destruct (Alloc.bind_ok env i (candidate env i)) eqn:Hb.
    + unfold Alloc.LockFile.
      destruct (decide (Alloc.lock_file (candidate env i) ∈ held)) as [Hin|Hnin].
      * next_iteration IH.
        unfold attempt_succeeds. rewrite Hb, bool_decide_eq_false_2 by tauto. reflexivity.
      * destruct (Alloc.lock_io_ok env i (candidate env i)) eqn:Hio.
        -- left. exists 0%nat, []. rewrite Nat.add_0_r.
           split; [lia|]. split; [reflexivity|]. split; [constructor|].
           split; [intros j Hj; lia|]. split; [|reflexivity].
           unfold attempt_succeeds. rewrite Hb, Hio, bool_decide_eq_true_2 by exact Hnin.
           reflexivity.
        -- next_iteration IH.
           unfold attempt_succeeds. rewrite Hio. apply andb_false_r.
    + next_iteration IH.
      unfold attempt_succeeds. rewrite Hb. reflexivity.
Qed.

(** The next two lemmas read off the two ways a call can end. *)
Lemma GetFreePort_returned (env : Alloc.PortEnv) (held : gset string) (p : Z)
    (l : Alloc.FileLock) :
  Alloc.outcome (Alloc.GetFreePort env held) = Alloc.Returned p l →
  ∃ (k : nat) (fails : list Alloc.Attempt),
    (k < 1000)%nat ∧ length fails = k ∧ Forall failed fails
    ∧ attempt_succeeds env held k = true
    ∧ p = candidate env k
    ∧ l = Alloc.mkLock (Alloc.lock_file p)
    ∧ Alloc.held_after (Alloc.GetFreePort env held) = {[Alloc.lock_file p]} ∪ held
    ∧ Alloc.attempts (Alloc.GetFreePort env held) = fails ++ [Alloc.mkAttempt p true true].
Proof.
  unfold Alloc.GetFreePort. destruct (Alloc.create_dir_ok env); [|discriminate].
  destruct (GetFreePort_loop_post env held Alloc.kAttempts 0 [])
    as [(k & fails & Hk & Hlen & Hf & _ & Hat & ->) | (_ & fails & _ & _ & ->)];
    [|discriminate].
  cbn [Alloc.outcome Alloc.held_after Alloc.attempts]. intros [= <- <-].
  exists k, fails. unfold Alloc.kAttempts in Hk. rewrite Nat.add_0_l in *.
  repeat split; assumption.
Qed.

Lemma GetFreePort_exhausted (env : Alloc.PortEnv) (held : gset string) :
  Alloc.create_dir_ok env = true →
  (∀ i, (i < 1000)%nat → attempt_succeeds env held i = false) →
  ∃ fails : list Alloc.Attempt,
    length fails = 1000%nat ∧ Forall failed fails
    ∧ Alloc.GetFreePort env held =
        Alloc.mkRun (Alloc.Fatal Alloc.fatal_no_port) held fails.
Proof.
  intros Hdir Hall. unfold Alloc.GetFreePort. rewrite Hdir.
  destruct (GetFreePort_loop_post env held Alloc.kAttempts 0 [])
    as [(k & fails & Hk & _ & _ & _ & Hat & _) | (_ & fails & Hlen & Hf & ->)].
  - unfold Alloc.kAttempts in Hk. rewrite Nat.add_0_l in Hat.
    rewrite (Hall k Hk) in Hat. discriminate.
  - exists fails. repeat split; assumption.
Qed.

Lemma GetFreePort_fatal_held (env : Alloc.PortEnv) (held : gset string) (msg : string) :
  Alloc.outcome (Alloc.GetFreePort env held) = Alloc.Fatal msg →
  Alloc.held_after (Alloc.GetFreePort env held) = held.
Proof.
  unfold Alloc.GetFreePort. destruct (Alloc.create_dir_ok env); [|reflexivity].
  destruct (GetFreePort_loop_post env held Alloc.kAttempts 0 [])
    as [(k & fails & _ & _ & _ & _ & _ & ->) | (_ & fails & _ & _ & ->)];
    [discriminate|reflexivity].
Qed.

(** C6.  A port returned by [GetFreePort] lies between 40000 and 65535,
    whatever the random draws and the outcomes of binding and locking. *)
Theorem GetFreePort_port_range (env : Alloc.PortEnv) (held : gset string) (p : Z)
    (l : Alloc.FileLock) :
  Alloc.outcome (Alloc.GetFreePort env held) = Alloc.Returned p l →
  40000 ≤ p ≤ 65535.
Proof.
  intros H. apply GetFreePort_returned in H as (k & _ & _ & _ & _ & _ & -> & _).
  apply random_port_of_range.
Qed.

Lemma GetFreePort_port_range_witness :
  Alloc.outcome (Alloc.GetFreePort env_free {[Alloc.lock_file 40007]}) =
    Alloc.Returned 40008 (Alloc.mkLock "/tmp/yb-port-locks/40008.lck")
  ∧ 40000 ≤ 40008 ≤ 65535.
Proof.
  split; [vm_compute; reflexivity|].
  apply (GetFreePort_port_range env_free {[Alloc.lock_file 40007]} 40008
           (Alloc.mkLock "/tmp/yb-port-locks/40008.lck")).
  vm_compute. reflexivity.
Defined.

(** C7.  [GetFreePort] makes at most 1000 attempts.  It returns a port only
    from inside the loop, at an attempt whose bind and lock both succeeded,
    so the value returned is never the 0 of the statement after the loop.
    When none of the 1000 attempts obtains a lock the call ends in the fatal
    log, after exactly 1000 attempts and without a lock taken. *)
Theorem GetFreePort_attempt_budget (env : Alloc.PortEnv) (held : gset string) :
  let r := Alloc.GetFreePort env held in
  (length (Alloc.attempts r) ≤ 1000)%nat
  ∧ (∀ p l, Alloc.outcome r = Alloc.Returned p l →
       p ≠ 0
       ∧ ∃ k, (k < 1000)%nat ∧ attempt_succeeds env held k = true
              ∧ p = candidate env k ∧ length (Alloc.attempts r) = S k)
  ∧ (Alloc.create_dir_ok env = true →
     (∀ i, (i < 1000)%nat → attempt_succeeds env held i = false) →
       Alloc.outcome r = Alloc.Fatal Alloc.fatal_no_port
       ∧ length (Alloc.attempts r) = 1000%nat
       ∧ Forall failed (Alloc.attempts r)
       ∧ Alloc.held_after r = held)
  ∧ (∀ msg, Alloc.outcome r = Alloc.Fatal msg →
       Forall failed (Alloc.attempts r) ∧ Alloc.held_after r = held).
Proof.
  intros r. split; [|split; [|split]].
  - unfold r, Alloc.GetFreePort. destruct (Alloc.create_dir_ok env); [|simpl; lia].
    destruct (GetFreePort_loop_post env held Alloc.kAttempts 0 [])
      as [(k & fails & Hk & Hlen & _ & _ & _ & ->) | (_ & fails & Hlen & _ & ->)];
      cbn [Alloc.attempts]; unfold Alloc.kAttempts in *.
    + rewrite app_nil_l, length_app. simpl. lia.
    + rewrite app_nil_l. lia.
  - intros p l H.
    assert (40000 ≤ p ≤ 65535) as Hrange.
    { destruct (GetFreePort_returned _ _ _ _ H) as (k0 & _ & _ & _ & _ & _ & -> & _).
      apply random_port_of_range. }
    split; [lia|].
    apply GetFreePort_returned in H
      as (k & fails & Hk & Hlen & _ & Hat & Hp & _ & _ & Hattempts).
    exists k. fold r in Hattempts. rewrite Hattempts, length_app. simpl.
    repeat split; [assumption..|lia].
  - intros Hdir Hall.
    destruct (GetFreePort_exhausted env held Hdir Hall) as (fails & Hlen & Hf & E).
    unfold r. rewrite E. repeat split; assumption.
  - intros msg. unfold r, Alloc.GetFreePort.
    destruct (Alloc.create_dir_ok env); [|intros _; split; [constructor|reflexivity]].
    destruct (GetFreePort_loop_post env held Alloc.kAttempts 0 [])
      as [(k & fails & _ & _ & _ & _ & _ & ->) | (_ & fails & _ & Hf & ->)];
      [discriminate|].
    intros _. split; [exact Hf|reflexivity].
Qed.

Lemma GetFreePort_attempt_budget_witness :
  Alloc.outcome (Alloc.GetFreePort env_busy ∅) = Alloc.Fatal Alloc.fatal_no_port
  ∧ length (Alloc.attempts (Alloc.GetFreePort env_busy ∅)) = 1000%nat
  ∧ length (Alloc.attempts (Alloc.GetFreePort env_free {[Alloc.lock_file 40007]})) = 2%nat.
Proof.
  pose proof (proj1 (proj2 (proj2 (GetFreePort_attempt_budget env_busy ∅)))
                eq_refl (λ i _, eq_refl)) as (H1 & H2 & _).
  split; [exact H1|]. split; [exact H2|].
  destruct (proj1 (proj2 (GetFreePort_attempt_budget env_free {[Alloc.lock_file 40007]}))
              40008 (Alloc.mkLock "/tmp/yb-port-locks/40008.lck"))
    as (_ & k & _ & _ & _ & _).
  - vm_compute. reflexivity.
  - vm_compute. reflexivity.
Defined.

(** ** Mutual exclusion *)

Lemma append_length (s t : string) :
  String.length (s +:+ t) = (String.length s + String.length t)%nat.
Proof. induction s as [|a s IH]; [reflexivity|]. rewrite append_cons. simpl. lia. Qed.

Lemma append_inj_r (s1 s2 t : string) : s1 +:+ t = s2 +:+ t → s1 = s2.
Proof.
  revert s2. induction s1 as [|a s1 IH]; intros [|b s2] H.
  - reflexivity.
  - apply (f_equal String.length) in H. rewrite !append_length in H. simpl in H. lia.
  - apply (f_equal String.length) in H. rewrite !append_length in H. simpl in H. lia.
  - rewrite !append_cons in H. injection H as -> H. f_equal. exact (IH _ H).
Qed.

Lemma lock_file_inj (p q : Z) : Alloc.lock_file p = Alloc.lock_file q → p = q.
Proof.
  unfold Alloc.lock_file. intros H.
  apply (inj (String.app _)) in H. apply (inj (String.app _)) in H.
  apply append_inj_r in H. exact (inj pretty _ _ H).
Qed.

Lemma sound_start (held : gset string) : sound (Alloc.start held).
Proof.
  split.
  - intros i j h1 h2 H. cbn in H. rewrite lookup_nil in H. discriminate.
  - intros h H. cbn in H. apply elem_of_nil in H. contradiction.
Qed.

Lemma sound_step (s : Alloc.System) (e : Alloc.Event) :
  sound s → sound (Alloc.step s e).
Proof.
  intros [Hports Hlocks]. destruct e as [inst env|k]; cbn [Alloc.step].
  - destruct (Alloc.outcome (Alloc.GetFreePort env (Alloc.lock_dir s))) as [p l|msg] eqn:E.
    + apply GetFreePort_returned in E
        as (k & fails & _ & _ & _ & Hat & Hp & -> & -> & _).
      unfold attempt_succeeds in Hat. apply andb_prop in Hat as [Hat _].
      apply andb_prop in Hat as [_ Hfree]. apply bool_decide_eq_true in Hfree.
      rewrite <- Hp in Hfree. clear Hp.
      assert (∀ h, h ∈ Alloc.handles s → Alloc.h_port h ≠ p) as Hfresh.
      { intros h Hh Heq. destruct (Hlocks h Hh) as [Hl Hin].
        rewrite Hl in Hin. cbn in Hin. rewrite Heq in Hin. contradiction. }
      split; cbn [Alloc.handles Alloc.lock_dir].
      * intros i j h1 h2 H1 H2 Hij.
        apply lookup_snoc_Some in H1 as [[Hi H1] | [Hi <-]];
          apply lookup_snoc_Some in H2 as [[Hj H2] | [Hj <-]]; cbn [Alloc.h_port].
        -- exact (Hports _ _ _ _ H1 H2 Hij).
        -- apply Hfresh. exact (list_elem_of_lookup_2 _ _ _ H1).
        -- intros Heq. symmetry in Heq. revert Heq. apply Hfresh.
           exact (list_elem_of_lookup_2 _ _ _ H2).
        -- lia.
      * intros h Hh. apply elem_of_app in Hh as [Hh | Hh].
        -- destruct (Hlocks h Hh) as [Hl Hin]. split; [exact Hl|]. set_solver.
        -- apply list_elem_of_singleton in Hh. subst h. cbn. split; [reflexivity|set_solver].
    + rewrite (GetFreePort_fatal_held _ _ _ E). split; assumption.
  - destruct (Alloc.handles s !! k) as [h|] eqn:Hk; [|split; assumption].
    split; cbn [Alloc.handles Alloc.lock_dir].
    + intros i j h1 h2 H1 H2 Hij.
      destruct (decide (i < k)%nat); destruct (decide (j < k)%nat).
      * rewrite list_lookup_delete_lt in H1, H2 by lia. exact (Hports _ _ _ _ H1 H2 Hij).
      * rewrite list_lookup_delete_lt in H1 by lia.
        rewrite list_lookup_delete_ge in H2 by lia.
        apply (Hports _ _ _ _ H1 H2). lia.
      * rewrite list_lookup_delete_ge in H1 by lia.
        rewrite list_lookup_delete_lt in H2 by lia.
        apply (Hports _ _ _ _ H1 H2). lia.
      * rewrite list_lookup_delete_ge in H1, H2 by lia.
        apply (Hports _ _ _ _ H1 H2). lia.
    + intros h' Hh'. apply list_elem_of_lookup in Hh' as [i Hi].
      assert (∃ i', i' ≠ k ∧ Alloc.handles s !! i' = Some h') as (i' & Hne & Hi').
      { destruct (decide (i < k)%nat).
        - exists i. rewrite list_lookup_delete_lt in Hi by lia. split; [lia|exact Hi].
        - exists (S i). rewrite list_lookup_delete_ge in Hi by lia. split; [lia|exact Hi]. }
      destruct (Hlocks h' (list_elem_of_lookup_2 _ _ _ Hi')) as [Hl Hin].
      split; [exact Hl|]. unfold Alloc.UnlockFile.
      apply elem_of_difference. split; [exact Hin|].
      rewrite not_elem_of_singleton.
      destruct (Hlocks h (list_elem_of_lookup_2 _ _ _ Hk)) as [Hlk _].
      rewrite Hl, Hlk. cbn. intros Heq. apply lock_file_inj in Heq.
      exact (Hports _ _ _ _ Hi' Hk Hne Heq).
Qed.

Lemma sound_run (evs : list Alloc.Event) (s : Alloc.System) :
  sound s → sound (Alloc.run evs s).
Proof.
  revert s. induction evs as [|e evs IH]; intros s H; [exact H|].
  apply IH, sound_step, H.
Qed.

(** C1.  Any number of allocator instances work on one lock directory, each
    calling [GetFreePort] and discarding reservations in any order, with
    arbitrary random draws and bind outcomes.  A call returns a port only
    when the lock file of that port was not locked, and it returns the lock
    on exactly that file, now locked in the directory.  At every moment each
    reservation still in some caller's hands holds the lock file of its port,
    and no two reservations have the same port. *)
Theorem GetFreePort_mutual_exclusion (held0 : gset string) (evs : list Alloc.Event) :
  let s := Alloc.run evs (Alloc.start held0) in
  (∀ i j h1 h2, Alloc.handles s !! i = Some h1 → Alloc.handles s !! j = Some h2 →
     i ≠ j → Alloc.h_port h1 ≠ Alloc.h_port h2)
  ∧ (∀ h, h ∈ Alloc.handles s →
       Alloc.h_lock h = Alloc.mkLock (Alloc.lock_file (Alloc.h_port h))
       ∧ Alloc.lock_path (Alloc.h_lock h) ∈ Alloc.lock_dir s)
  ∧ (∀ env held p l,
       Alloc.outcome (Alloc.GetFreePort env held) = Alloc.Returned p l →
       (Alloc.lock_file p ∉ held)
       ∧ l = Alloc.mkLock (Alloc.lock_file p)
       ∧ Alloc.held_after (Alloc.GetFreePort env held) = {[Alloc.lock_file p]} ∪ held)
  ∧ (∀ p q, Alloc.lock_file p = Alloc.lock_file q → p = q).
Proof.
  intros s. destruct (sound_run evs _ (sound_start held0)) as [Hports Hlocks].
  split; [exact Hports|]. split; [exact Hlocks|]. split; [|exact lock_file_inj].
  intros env held p l H.
  apply GetFreePort_returned in H as (k & _ & _ & _ & _ & Hat & -> & -> & Hheld & _).
  unfold attempt_succeeds in Hat. apply andb_prop in Hat as [Hat _].
  apply andb_prop in Hat as [_ Hfree]. apply bool_decide_eq_true in Hfree.
  repeat split; assumption.
Qed.

Lemma GetFreePort_mutual_exclusion_witness :
  let s := Alloc.run [Alloc.CallGetFreePort 0 env_free; Alloc.CallGetFreePort 1 env_free;
                      Alloc.Discard 0; Alloc.CallGetFreePort 2 env_free] (Alloc.start ∅) in
  Alloc.handles s =
    [Alloc.mkHandle 1 40008 (Alloc.mkLock "/tmp/yb-port-locks/40008.lck");
     Alloc.mkHandle 2 40007 (Alloc.mkLock "/tmp/yb-port-locks/40007.lck")]
  ∧ (40008 : Z) ≠ 40007.
Proof.
  split; [vm_compute; reflexivity|].
  refine (proj1 (GetFreePort_mutual_exclusion ∅
            [Alloc.CallGetFreePort 0 env_free; Alloc.CallGetFreePort 1 env_free;
             Alloc.Discard 0; Alloc.CallGetFreePort 2 env_free])
            0%nat 1%nat
            (Alloc.mkHandle 1 40008 (Alloc.mkLock "/tmp/yb-port-locks/40008.lck"))
            (Alloc.mkHandle 2 40007 (Alloc.mkLock "/tmp/yb-port-locks/40007.lck"))
            _ _ _).
  - vm_compute. reflexivity.
  - vm_compute. reflexivity.
  - discriminate.
Defined.

(** * Further properties of the module *)

(** ** Decimal text *)

Lemma is_nat_pretty_N_char (m : N) :
  (m < 10)%N → Ascii.is_nat (pretty_N_char m) = Some (N.to_nat m).
Proof.
  intros H.
  assert (m = 0 ∨ m = 1 ∨ m = 2 ∨ m = 3 ∨ m = 4 ∨ m = 5 ∨ m = 6 ∨ m = 7
          ∨ m = 8 ∨ m = 9)%N as Hm by lia.
  repeat (destruct Hm as [-> | Hm]; [reflexivity|]). subst m. reflexivity.
Qed.

Lemma digits_value_shift (s : string) (acc acc' v : Z) :
  digits_value acc s = Some v →
  digits_value acc' s = Some (v + (acc' - acc) * 10 ^ Z.of_nat (String.length s)).
Proof.
  revert acc acc' v. induction s as [|a s IH]; intros acc acc' v; simpl String.length.
  - simpl. intros [= <-]. f_equal; lia.
  - cbn [digits_value]. destruct (Ascii.is_nat a) as [d|]; [|discriminate].
    intros H. rewrite (IH _ (10 * acc' + Z.of_nat d) _ H). f_equal.
    rewrite Nat2Z.inj_succ, Z.pow_succ_r by lia. lia.
Qed.

Lemma digits_value_pretty_go (x : N) (s : string) (v : Z) :
  digits_value 0 s = Some v →
  digits_value 0 (pretty_N_go x s) =
    Some (Z.of_N x * 10 ^ Z.of_nat (String.length s) + v).
Proof.
  revert s v. induction (N.lt_wf_0 x) as [x _ IH]; intros s v Hs.
  destruct (decide (x = 0%N)) as [->|Hx].
  - rewrite pretty_N_go_0, Hs. f_equal; lia.
  - rewrite pretty_N_go_step by lia.
    assert (x `mod` 10 < 10)%N as Hm by (apply N.mod_lt; lia).
    rewrite (IH (x `div` 10)%N) with (v := Z.of_N (x `mod` 10) * 10 ^ Z.of_nat (String.length s) + v).
    + f_equal. simpl String.length. rewrite Nat2Z.inj_succ, Z.pow_succ_r by lia.
      pose proof (N.div_mod x 10 ltac:(lia)) as Hdm.
      assert (Z.of_N x = 10 * Z.of_N (x `div` 10) + Z.of_N (x `mod` 10)) as -> by lia.
      ring.
    + apply N.div_lt; lia.
    + cbn [digits_value]. rewrite (is_nat_pretty_N_char _ Hm).
      rewrite (digits_value_shift _ _ _ _ Hs). f_equal. rewrite N_nat_Z. lia.
Qed.

Lemma digits_value_pretty (n : Z) :
  0 ≤ n → digits_value 0 (pretty n) = Some n ∧ pretty n ≠ "".
Proof.
  intros Hn. destruct n as [|q|q]; [split; [reflexivity|discriminate]| |lia].
  unfold pretty, pretty_Z, pretty, pretty_positive, pretty, pretty_N.
  rewrite decide_False by discriminate.
  pose proof (digits_value_pretty_go (N.pos q) "" 0 eq_refl) as H.
  simpl String.length in H. rewrite Z.pow_0_r in H.
  replace (Z.of_N (N.pos q) * 1 + 0) with (Z.pos q) in H by lia.
  split; [exact H|]. intros E. rewrite E in H. discriminate H.
Qed.

Lemma SimpleAtoi_pretty (n : Z) :
  0 ≤ n ≤ UINT32_MAX → SimpleAtoi (pretty n) = Some n.
Proof.
  intros [H0 H1]. destruct (digits_value_pretty n H0) as [Hv Hne].
  unfold SimpleAtoi. destruct (pretty n) as [|a s] eqn:E; [done|].
  rewrite Hv, decide_True by exact H1. reflexivity.
Qed.

Lemma digits_value_all_digits (s : string) (acc v : Z) :
  digits_value acc s = Some v → all_digits s = true.
Proof.
  revert acc. induction s as [|a s IH]; intros acc; simpl; [reflexivity|].
  destruct (Ascii.is_nat a) as [d|]; [|discriminate].
  intros H. rewrite (IH _ H). rewrite bool_decide_eq_true_2 by eauto. reflexivity.
Qed.

Lemma digit_not_space (a : ascii) : is_Some (Ascii.is_nat a) → Ascii.is_space a = false.
Proof.
  intros [d Hd]. destruct a as [[] [] [] [] [] [] [] []]; try discriminate Hd; reflexivity.
Qed.

Lemma all_digits_strcount (s : string) (c : ascii) :
  all_digits s = true → Ascii.is_nat c = None → strcount s c = 0%nat.
Proof.
  intros Hs Hc. induction s as [|a s IH]; [reflexivity|].
  simpl in *. apply andb_prop in Hs as [Ha Hs]. apply bool_decide_eq_true in Ha.
  rewrite decide_False; [exact (IH Hs)|].
  intros ->. rewrite Hc in Ha. destruct Ha as [? [=]].
Qed.

Lemma all_digits_start (s : string) : all_digits s = true → starts_with_space s = false.
Proof.
  destruct s as [|a s]; [reflexivity|]. simpl. intros H.
  apply andb_prop in H as [Ha _]. apply bool_decide_eq_true in Ha.
  exact (digit_not_space _ Ha).
Qed.

Lemma all_digits_end (s : string) : all_digits s = true → ends_with_space s = false.
Proof.
  induction s as [|a s IH]; [reflexivity|]. cbn [all_digits]. intros H.
  apply andb_prop in H as [Ha Hs]. apply bool_decide_eq_true in Ha.
  destruct s as [|b t]; [exact (digit_not_space _ Ha)|]. exact (IH Hs).
Qed.

Lemma pretty_all_digits (n : Z) : 0 ≤ n → all_digits (pretty n) = true.
Proof.
  intros H. destruct (digits_value_pretty n H) as [Hv _].
  exact (digits_value_all_digits _ _ _ Hv).
Qed.

(** ** Text forms and parsing *)

Lemma JoinStrings_join (pieces : list string) (d : ascii) :
  JoinStrings pieces d = join d pieces.
Proof.
  induction pieces as [|p [|q ps] IH]; [reflexivity..|].
  cbn [JoinStrings join] in *. rewrite IH. reflexivity.
Qed.

Lemma StripLeading_id (s : string) : starts_with_space s = false → StripLeading s = s.
Proof. destruct s as [|a s]; simpl; [reflexivity|]. intros ->. reflexivity. Qed.

Lemma StripTrailing_id (s : string) : ends_with_space s = false → StripTrailing s = s.
Proof.
  induction s as [|a s IH]; [reflexivity|]. cbn [ends_with_space StripTrailing].
  destruct s as [|b t].
  - simpl. intros ->. reflexivity.
  - intros H. rewrite (IH H). reflexivity.
Qed.

Lemma StripWhiteSpace_id (s : string) :
  starts_with_space s = false → ends_with_space s = false → StripWhiteSpace s = s.
Proof.
  intros H1 H2. unfold StripWhiteSpace.
  rewrite (StripLeading_id _ H1). apply StripTrailing_id, H2.
Qed.

Lemma ToString_unfold (hp : HostPort.t) :
  HostPort.ToString hp = HostPort.host hp +:+ String colon (pretty (HostPort.port hp)).
Proof. reflexivity. Qed.

Lemma ParseString_ToString (self hp : HostPort.t) (default_port : Z) :
  well_formed hp →
  HostPort.ParseString self (HostPort.ToString hp) default_port = (Status_OK, hp).
Proof.
  intros [(Hcolon & Hstart & Hend) Hport]. destruct hp as [h p]. cbn in *.
  rewrite ToString_unfold. cbn [HostPort.host HostPort.port].
  rewrite (ParseString_colon _ _ _ _ Hcolon).
  rewrite SimpleAtoi_pretty by (unfold UINT32_MAX; lia).
  rewrite decide_False by lia.
  rewrite (StripWhiteSpace_id _ Hstart Hend). reflexivity.
Qed.

(** X1.  Writing a well-formed endpoint with [HostPort::ToString] and reading
    the text with [HostPort::ParseString] gives the endpoint back, whatever
    the receiver held and whatever the default port is. *)
Theorem ParseString_ToString_roundtrip (self hp : HostPort.t) (default_port : Z) :
  strcount (HostPort.host hp) colon = 0%nat →
  starts_with_space (HostPort.host hp) = false →
  ends_with_space (HostPort.host hp) = false →
  0 ≤ HostPort.port hp ≤ 65535 →
  HostPort.ParseString self (HostPort.ToString hp) default_port = (Status_OK, hp).
Proof.
  intros H1 H2 H3 H4. apply ParseString_ToString. repeat split; assumption || apply H4.
Qed.

Lemma ParseString_ToString_roundtrip_witness :
  HostPort.ParseString HostPort.empty
    (HostPort.ToString (HostPort.mk "node-3.example" 65535)) 7100 =
  (Status_OK, HostPort.mk "node-3.example" 65535).
Proof.
  apply (ParseString_ToString_roundtrip HostPort.empty
           (HostPort.mk "node-3.example" 65535) 7100); [reflexivity..|cbn; lia].
Defined.

Lemma SplitLimit1_fst_absent (s : string) (d : ascii) :
  strcount (fst (SplitLimit1 s d)) d = 0%nat.
Proof.
  induction s as [|a s IH]; simpl; [reflexivity|].
  destruct (decide (a = d)) as [|Hne]; [reflexivity|].
  destruct (SplitLimit1 s d) as [l r]. simpl in *.
  rewrite decide_False by exact Hne. exact IH.
Qed.

Lemma StripWhiteSpace_strcount (s : string) (c : ascii) :
  strcount s c = 0%nat → strcount (StripWhiteSpace s) c = 0%nat.
Proof.
  destruct (StripWhiteSpace_spec s) as (l & r & E & _).
  intros H. rewrite E, !strcount_app in H. lia.
Qed.

(** X2.  Whatever the input, [HostPort::ParseString] either fails with
    InvalidArgument "Invalid port" carrying the input and leaves the receiver
    untouched, or succeeds with an endpoint whose port lies in 0..65535 and
    whose host has no colon and no white space at either end. *)
Theorem ParseString_result_well_formed (self : HostPort.t) (str : string)
    (default_port : Z) :
  HostPort.ParseString self str default_port =
    (STATUS2 kInvalidArgument "Invalid port" str, self)
  ∨ ∃ hp, HostPort.ParseString self str default_port = (Status_OK, hp)
          ∧ 0 ≤ HostPort.port hp ≤ 65535
          ∧ strcount (HostPort.host hp) colon = 0%nat
          ∧ starts_with_space (HostPort.host hp) = false
          ∧ ends_with_space (HostPort.host hp) = false.
Proof.
  assert (∀ q, 0 ≤ q `mod` 65536 ≤ 65535) as Hmod
    by (intros q; pose proof (Z.mod_pos_bound q 65536 ltac:(lia)); lia).
  assert (∀ q, ∃ hp,
    (Status_OK, HostPort.mk (StripWhiteSpace (fst (SplitLimit1 str colon))) (q `mod` 65536))
      = (Status_OK, hp)
    ∧ 0 ≤ HostPort.port hp ≤ 65535
    ∧ strcount (HostPort.host hp) colon = 0%nat
    ∧ starts_with_space (HostPort.host hp) = false
    ∧ ends_with_space (HostPort.host hp) = false) as Hgood.
  { intros q. eexists. split; [reflexivity|]. cbn [HostPort.host HostPort.port].
    split; [apply Hmod|]. split.
    - apply StripWhiteSpace_strcount, SplitLimit1_fst_absent.
    - destruct (StripWhiteSpace_spec (fst (SplitLimit1 str colon)))
        as (l & r & _ & _ & _ & H1 & H2). split; assumption. }
  unfold HostPort.ParseString. destruct (_ && _); [right; apply Hgood|].
  destruct (SimpleAtoi _) as [n|]; [|left; reflexivity].
  destruct (decide (n > 65535)); [left; reflexivity|right; apply Hgood].
Qed.

(** ** ToCommaSeparatedString and ParseStrings *)

Lemma SplitAll_absent (s : string) (d : ascii) :
  strcount s d = 0%nat → SplitAll s d = [s].
Proof.
  induction s as [|a s IH]; simpl; [reflexivity|].
  destruct (decide (a = d)); [discriminate|]. intros H. rewrite IH by lia. reflexivity.
Qed.

Lemma SplitAll_app (a b : string) (d : ascii) :
  SplitAll (a +:+ String d b) d = SplitAll a d ++ SplitAll b d.
Proof.
  induction a as [|c a IH].
  - rewrite append_nil_l. simpl. rewrite decide_True by reflexivity. reflexivity.
  - rewrite append_cons. cbn [SplitAll]. rewrite IH.
    destruct (decide (c = d)); [reflexivity|].
    pose proof (SplitAll_not_nil a d). destruct (SplitAll a d); [done|reflexivity].
Qed.

Lemma SplitSkipEmpty_app (a b : string) (d : ascii) :
  SplitSkipEmpty (a +:+ String d b) d = SplitSkipEmpty a d ++ SplitSkipEmpty b d.
Proof. unfold SplitSkipEmpty. rewrite SplitAll_app. apply filter_app. Qed.

Lemma SplitSkipEmpty_join (pieces : list string) (d : ascii) :
  Forall (λ p, p ≠ "" ∧ strcount p d = 0%nat) pieces →
  SplitSkipEmpty (join d pieces) d = pieces.
Proof.
  assert (∀ p, p ≠ "" → strcount p d = 0%nat → SplitSkipEmpty p d = [p]) as Hone.
  { intros p Hne Hp. unfold SplitSkipEmpty. rewrite (SplitAll_absent _ _ Hp).
    rewrite filter_cons_True by (destruct p; done). reflexivity. }
  induction pieces as [|p [|q ps] IH]; intros H.
  - reflexivity.
  - inversion H as [|? ? [Hne Hp] _]; subst. apply Hone; assumption.
  - inversion H as [|? ? [Hne Hp] Hrest]; subst.
    change (join d (p :: q :: ps)) with (p +:+ String d (join d (q :: ps))).
    rewrite SplitSkipEmpty_app, (Hone _ Hne Hp), (IH Hrest). reflexivity.
Qed.

Lemma ToString_piece (hp : HostPort.t) :
  strcount (HostPort.host hp) comma = 0%nat → 0 ≤ HostPort.port hp →
  HostPort.ToString hp ≠ "" ∧ strcount (HostPort.ToString hp) comma = 0%nat.
Proof.
  intros Hh Hp. rewrite ToString_unfold. split.
  - destruct (HostPort.host hp); discriminate.
  - rewrite strcount_app. cbn [strcount]. rewrite decide_False by discriminate.
    rewrite (all_digits_strcount _ comma (pretty_all_digits _ Hp) eq_refl). lia.
Qed.

(** X3.  [HostPort::ParseStrings] reads back what
    [HostPort::ToCommaSeparatedString] writes: for well-formed endpoints whose
    hosts contain no comma the result is OK with the same endpoints in the
    same order, the empty list included. *)
Theorem ParseStrings_ToCommaSeparatedString_roundtrip (hostports res : list HostPort.t)
    (default_port : Z) :
  Forall (λ hp, well_formed hp ∧ strcount (HostPort.host hp) comma = 0%nat) hostports →
  HostPort.ParseStrings (HostPort.ToCommaSeparatedString hostports) default_port res =
    (Status_OK, hostports).
Proof.
  intros H. unfold HostPort.ParseStrings, HostPort.ToCommaSeparatedString.
  rewrite JoinStrings_join, SplitSkipEmpty_join.
  - rewrite ParseStrings_loop_ok.
    + simpl. f_equal. induction H as [|hp hps [Hwf _] _ IH]; [reflexivity|].
      cbn [map]. rewrite IH. f_equal. unfold parse_value.
      rewrite (ParseString_ToString _ _ _ Hwf). reflexivity.
    + apply Forall_forall. intros s Hs. apply list_elem_of_In, in_map_iff in Hs
        as (hp & <- & Hin).
      rewrite Forall_forall in H. destruct (H hp) as [Hwf _]; [apply list_elem_of_In, Hin|].
      unfold parses, parse_status. rewrite (ParseString_ToString _ _ _ Hwf). reflexivity.
  - apply Forall_forall. intros s Hs. apply list_elem_of_In, in_map_iff in Hs
      as (hp & <- & Hin).
    rewrite Forall_forall in H. destruct (H hp) as [[_ Hport] Hcomma];
      [apply list_elem_of_In, Hin|].
    apply ToString_piece; [exact Hcomma|lia].
Qed.

Lemma ParseStrings_ToCommaSeparatedString_roundtrip_witness :
  HostPort.ParseStrings
    (HostPort.ToCommaSeparatedString [HostPort.mk "m1" 7100; HostPort.mk "10.0.0.2" 0])
    9 [HostPort.empty] =
  (Status_OK, [HostPort.mk "m1" 7100; HostPort.mk "10.0.0.2" 0]).
Proof.
  apply (ParseStrings_ToCommaSeparatedString_roundtrip
           [HostPort.mk "m1" 7100; HostPort.mk "10.0.0.2" 0] [HostPort.empty] 9).
  repeat constructor; cbn; lia.
Defined.

Lemma ParseStrings_loop_app (default_port : Z) (l1 l2 : list string)
    (acc : list HostPort.t) :
  HostPort.ParseStrings_loop (l1 ++ l2) default_port acc =
    let '(s, hps) := HostPort.ParseStrings_loop l1 default_port acc in
    if ok s then HostPort.ParseStrings_loop l2 default_port hps else (s, hps).
Proof.
  revert acc. induction l1 as [|x l1 IH]; intros acc; simpl; [reflexivity|].
  destruct (HostPort.ParseString HostPort.empty x default_port) as [s hp].
  destruct (ok s) eqn:Hs; [apply IH|]. rewrite Hs. reflexivity.
Qed.

Lemma ParseStrings_loop_acc (default_port : Z) (l : list string) (acc : list HostPort.t) :
  HostPort.ParseStrings_loop l default_port acc =
    (fst (HostPort.ParseStrings_loop l default_port []),
     acc ++ snd (HostPort.ParseStrings_loop l default_port [])).
Proof.
  destruct (first_failure (parses default_port) l)
    as [Hall | (pre & bad & post & -> & Hpre & Hbad)].
  - rewrite !(ParseStrings_loop_ok _ _ _ Hall). reflexivity.
  - rewrite !(ParseStrings_loop_fail _ _ _ _ _ Hpre Hbad). reflexivity.
Qed.

(** X4.  [HostPort::ParseStrings] on two lists written one after the other
    with a comma in between: the first list's failure wins, otherwise the
    second list's failure is returned, and in both cases the caller's vector
    is left alone; when both parse, the result is the endpoints of the first
    followed by those of the second. *)
Theorem ParseStrings_comma_concat (a b : string) (default_port : Z)
    (res : list HostPort.t) :
  let ra := HostPort.ParseStrings a default_port [] in
  let rb := HostPort.ParseStrings b default_port [] in
  HostPort.ParseStrings (a +:+ String comma b) default_port res =
    if ok (fst ra) then
      if ok (fst rb) then (Status_OK, snd ra ++ snd rb) else (fst rb, res)
    else (fst ra, res).
Proof.
  unfold HostPort.ParseStrings. rewrite SplitSkipEmpty_app, ParseStrings_loop_app.
  destruct (HostPort.ParseStrings_loop (SplitSkipEmpty a comma) default_port [])
    as [sa la] eqn:Ea.
  destruct (ok sa) eqn:Hsa; cbn [fst snd ok code Status_OK];
    [|rewrite ?Hsa; cbn [fst snd]; rewrite ?Hsa; reflexivity].
  rewrite (ParseStrings_loop_acc _ (SplitSkipEmpty b comma) la).
  destruct (HostPort.ParseStrings_loop (SplitSkipEmpty b comma) default_port [])
    as [sb lb] eqn:Eb.
  cbn [fst snd]. destruct (ok sb) eqn:Hsb; cbn [fst snd ok code Status_OK];
    rewrite ?Hsb; reflexivity.
Qed.

(** ** More on RemoveAndGetHostPortList *)

Lemma flat_segments_join (multiple : list string) :
  flat_segments multiple = SplitSkipEmpty (join comma multiple) comma.
Proof.
  induction multiple as [|m [|m' ms] IH]; [reflexivity| |].
  - unfold flat_segments. simpl. apply app_nil_r.
  - change (join comma (m :: m' :: ms)) with (m +:+ String comma (join comma (m' :: ms))).
    rewrite SplitSkipEmpty_app, <- IH. reflexivity.
Qed.

(** X5.  [HostPort::RemoveAndGetHostPortList] treats its vector of
    comma-separated strings as one list: status and output vector are those of
    the call on the single string that joins the elements with commas. *)
Theorem RemoveAndGetHostPortList_joined (remove : Sockaddr.t) (multiple : list string)
    (default_port : Z) (res0 : list HostPort.t) :
  let r := HostPort.RemoveAndGetHostPortList remove multiple default_port res0 in
  let r' := HostPort.RemoveAndGetHostPortList remove
              [JoinStrings multiple comma] default_port res0 in
  HostPort.status r = HostPort.status r' ∧ HostPort.res r = HostPort.res r'.
Proof.
  cbv zeta. unfold HostPort.RemoveAndGetHostPortList.
  rewrite !Remove_outer_flat, JoinStrings_join, (flat_segments_join multiple).
  replace (flat_segments [join comma multiple])
    with (SplitSkipEmpty (join comma multiple) comma)
    by (unfold flat_segments; simpl; symmetry; apply app_nil_r).
  destruct (HostPort.Remove_inner _ _ _ _) as [s [found res1]].
  destruct (ok s); [destruct found|]; split; reflexivity.
Qed.

(** X6.  When some segment of the flattened input does not parse,
    [HostPort::RemoveAndGetHostPortList] returns the InvalidArgument of the
    first such segment, also when the target was met before it, and the
    caller's vector has already grown by the endpoints that precede the
    segment and differ from the target. *)
Theorem RemoveAndGetHostPortList_parse_failure (remove : Sockaddr.t)
    (multiple : list string) (default_port : Z) (res0 : list HostPort.t) :
  ¬ Forall (parses default_port) (flat_segments multiple) →
  ∃ pre bad post,
    flat_segments multiple = pre ++ bad :: post
    ∧ Forall (parses default_port) pre ∧ ¬ parses default_port bad
    ∧ HostPort.RemoveAndGetHostPortList remove multiple default_port res0 =
        HostPort.mkRemove (STATUS2 kInvalidArgument "Invalid port" bad)
          (res0 ++ filter (λ hp, HostPort.equals hp remove = false)
                          (map (parse_value default_port) pre))
          [].
Proof.
  intros Hnot.
  destruct (first_failure (parses default_port) (flat_segments multiple))
    as [Hall | (pre & bad & post & E & Hpre & Hbad)]; [contradiction|].
  exists pre, bad, post. repeat split; try assumption.
  apply (RemoveAndGetHostPortList_failed _ _ _ _ _ _ _ E Hpre Hbad).
Qed.

Lemma RemoveAndGetHostPortList_parse_failure_witness :
  ∃ pre bad post,
    flat_segments ["10.0.0.1:7100,m2"; "m3:x,m4"] = pre ++ bad :: post
    ∧ Forall (parses 7100) pre ∧ ¬ parses 7100 bad
    ∧ HostPort.RemoveAndGetHostPortList (Sockaddr.mk 167772161 7100)
        ["10.0.0.1:7100,m2"; "m3:x,m4"] 7100 [] =
        HostPort.mkRemove (STATUS2 kInvalidArgument "Invalid port" bad)
          ([] ++ filter (λ hp, HostPort.equals hp (Sockaddr.mk 167772161 7100) = false)
                        (map (parse_value 7100) pre))
          [].
Proof.
  apply (RemoveAndGetHostPortList_parse_failure (Sockaddr.mk 167772161 7100)
           ["10.0.0.1:7100,m2"; "m3:x,m4"] 7100 []).
  intros H. apply Forall_cons_1 in H as [_ H]. apply Forall_cons_1 in H as [_ H].
  apply Forall_cons_1 in H as [H _]. discriminate H.
Defined.

(** ** More on ParseAddressList *)

Lemma ResolveAddresses_unresolved (os : Net.OS) (hp : HostPort.t)
    (addresses : option (list Sockaddr.t)) :
  ¬ resolves os hp →
  Net.ResolveAddresses os hp addresses = (unresolved_status os hp, addresses).
Proof.
  unfold resolves, Net.ResolveAddresses, unresolved_status. fold inet_stream_hints.
  intros H. rewrite decide_True by exact H. reflexivity.
Qed.

Lemma ParseAddressList_loop_app (os : Net.OS) (l1 l2 : list HostPort.t)
    (st : gset Sockaddr.t * list Sockaddr.t) :
  Net.ParseAddressList_loop os (l1 ++ l2) st =
    let '(s, st') := Net.ParseAddressList_loop os l1 st in
    if ok s then Net.ParseAddressList_loop os l2 st' else (s, st').
Proof.
  revert st. induction l1 as [|hp l1 IH]; intros st; simpl; [reflexivity|].
  destruct (Net.ResolveAddresses os hp (Some [])) as [s this].
  destruct (ok s) eqn:Hs; [apply IH|]. rewrite Hs. reflexivity.
Qed.

Lemma ParseAddressList_loop_unresolved (os : Net.OS) (pre : list HostPort.t)
    (bad : HostPort.t) (post : list HostPort.t) (st : gset Sockaddr.t * list Sockaddr.t) :
  Forall (resolves os) pre → ¬ resolves os bad →
  Net.ParseAddressList_loop os (pre ++ bad :: post) st =
    (unresolved_status os bad, Net.insert_unique (concat (map (resolved os) pre)) st).
Proof.
  intros Hpre Hbad.
  rewrite ParseAddressList_loop_app, (ParseAddressList_loop_resolved _ _ _ Hpre).
  cbn [ok code Status_OK Net.ParseAddressList_loop].
  rewrite (ResolveAddresses_unresolved _ _ _ Hbad). reflexivity.
Qed.

(** X7.  [ParseAddressList] only appends: whatever the input, the status does
    not depend on what the caller's vector held, and the vector afterwards is
    its old content followed by what the call yields on an empty vector.
    Addresses already in the vector are not taken into account when
    duplicates are dropped. *)
Theorem ParseAddressList_appends (os : Net.OS) (addr_list : string) (default_port : Z)
    (addresses : list Sockaddr.t) :
  Net.ParseAddressList os addr_list default_port addresses =
    (fst (Net.ParseAddressList os addr_list default_port []),
     addresses ++ snd (Net.ParseAddressList os addr_list default_port [])).
Proof.
  unfold Net.ParseAddressList.
  destruct (HostPort.ParseStrings addr_list default_port []) as [s hps].
  destruct (ok s); [|cbn; rewrite app_nil_r; reflexivity].
  destruct (first_failure (resolves os) hps)
    as [Hall | (pre & bad & post & -> & Hpre & Hbad)].
  - rewrite !(ParseAddressList_loop_resolved _ _ _ Hall), !insert_unique_spec.
    reflexivity.
  - rewrite !(ParseAddressList_loop_unresolved _ _ _ _ _ Hpre Hbad), !insert_unique_spec.
    reflexivity.
Qed.

Lemma ParseAddressList_appends_witness :
  Net.ParseAddressList os_db "db,twice,nowhere,db" 7100 [Sockaddr.mk 167772161 7100] =
    (mkStatus kNetworkError "Unable to resolve address 'nowhere'"
       "Name or service not known" None,
     [Sockaddr.mk 167772161 7100; Sockaddr.mk 167772161 7100; Sockaddr.mk 167772162 7100]).
Proof.
  rewrite (ParseAddressList_appends os_db "db,twice,nowhere,db" 7100
             [Sockaddr.mk 167772161 7100]).
  vm_compute. reflexivity.
Defined.

(** X8.  The two ways [ParseAddressList] fails.  When the list does not
    parse, the parse status is returned and the caller's vector is untouched.
    When the list parses but some host does not resolve, the NetworkError of
    the first such host is returned, and the vector has already received the
    addresses of the hosts before it, each once, in order of first
    appearance. *)
Theorem ParseAddressList_failure (os : Net.OS) (addr_list : string) (default_port : Z)
    (addresses : list Sockaddr.t) :
  (ok (fst (HostPort.ParseStrings addr_list default_port [])) = false →
     Net.ParseAddressList os addr_list default_port addresses =
       (fst (HostPort.ParseStrings addr_list default_port []), addresses))
  ∧ (∀ pre bad post,
       HostPort.ParseStrings addr_list default_port [] = (Status_OK, pre ++ bad :: post) →
       Forall (resolves os) pre → ¬ resolves os bad →
       Net.ParseAddressList os addr_list default_port addresses =
         (mkStatus kNetworkError
            ("Unable to resolve address '" +:+ HostPort.host bad +:+ "'")
            (Net.gai_strerror os
               (Net.gai_rc (Net.getaddrinfo os (HostPort.host bad) inet_stream_hints)))
            None,
          addresses ++ first_occurrences (concat (map (resolved os) pre)))).
Proof.
  split.
  - unfold Net.ParseAddressList.
    destruct (HostPort.ParseStrings addr_list default_port []) as [s hps].
    cbn [fst]. intros ->. reflexivity.
  - intros pre bad post E Hpre Hbad. unfold Net.ParseAddressList. rewrite E.
    cbn [ok code Status_OK].
    rewrite (ParseAddressList_loop_unresolved _ _ _ _ _ Hpre Hbad), insert_unique_spec.
    cbn [snd]. unfold unresolved_status, STATUS2. do 2 f_equal.
    apply filter_all. intros y. apply not_elem_of_empty.
Qed.

Lemma ParseAddressList_failure_witness :
  Net.ParseAddressList os_db "db,twice:x" 7100 [] =
    (STATUS2 kInvalidArgument "Invalid port" "twice:x", [])
  ∧ Net.ParseAddressList os_db "twice,db,nowhere:1,db" 7100 [] =
    (mkStatus kNetworkError "Unable to resolve address 'nowhere'"
       "Name or service not known" None,
     [Sockaddr.mk 167772162 7100; Sockaddr.mk 167772161 7100]).
Proof.
  split.
  - apply (proj1 (ParseAddressList_failure os_db "db,twice:x" 7100 [])). reflexivity.
  - refine (proj2 (ParseAddressList_failure os_db "twice,db,nowhere:1,db" 7100 [])
             [HostPort.mk "twice" 7100; HostPort.mk "db" 7100] (HostPort.mk "nowhere" 1)
             [HostPort.mk "db" 7100] _ _ _).
    + reflexivity.
    + repeat constructor.
    + discriminate.
Defined.

Lemma filter_none {A : Type} (P : A → Prop) `{∀ x, Decision (P x)} (l : list A) :
  Forall (λ x, ¬ P x) l → filter P l = [].
Proof.
  induction 1 as [|x l Hx _ IH]; [reflexivity|].
  rewrite filter_cons_False by exact Hx. exact IH.
Qed.

Lemma first_occurrences_twice (l : list Sockaddr.t) :
  first_occurrences (l ++ l) = first_occurrences l.
Proof.
  rewrite first_occurrences_app, filter_none; [apply app_nil_r|].
  apply Forall_forall. intros x Hx Hnot. apply Hnot, first_occurrences_elem, Hx.
Qed.

(** X9.  Writing the same list twice changes nothing: for every input,
    [ParseAddressList] on the list followed by a comma and the list again
    returns the same status and the same vector as on the list alone. *)
Theorem ParseAddressList_repeated (os : Net.OS) (addr_list : string) (default_port : Z)
    (addresses : list Sockaddr.t) :
  Net.ParseAddressList os (addr_list +:+ String comma addr_list) default_port addresses =
    Net.ParseAddressList os addr_list default_port addresses.
Proof.
  unfold Net.ParseAddressList, HostPort.ParseStrings.
  rewrite SplitSkipEmpty_app, ParseStrings_loop_app.
  destruct (first_failure (parses default_port) (SplitSkipEmpty addr_list comma))
    as [Hall | (pre & bad & post & -> & Hpre & Hbad)].
  - rewrite (ParseStrings_loop_ok _ _ [] Hall). cbn [ok code Status_OK app].
    rewrite (ParseStrings_loop_ok _ _ _ Hall). cbn [ok code Status_OK].
    set (hps := map (parse_value default_port) (SplitSkipEmpty addr_list comma)).
    destruct (first_failure (resolves os) hps)
      as [Hres | (hpre & hbad & hpost & E & Hhpre & Hhbad)].
    + rewrite (ParseAddressList_loop_resolved os (hps ++ hps)) by (apply Forall_app; done).
      rewrite (ParseAddressList_loop_resolved _ _ _ Hres), !insert_unique_spec.
      cbn [snd]. rewrite map_app, concat_app, first_occurrences_twice. reflexivity.
    + rewrite E, <- app_assoc. cbn [app].
      rewrite !(ParseAddressList_loop_unresolved _ _ _ _ _ Hhpre Hhbad). reflexivity.
  - rewrite (ParseStrings_loop_fail _ _ _ _ _ Hpre Hbad). reflexivity.
Qed.

(** ** SockaddrFromHostPort and HostPortFromSockaddrReplaceWildcard *)

(** X10.  [SockaddrFromHostPort] returns the first address the resolver
    lists, with the endpoint's port.  It fails, leaving the caller's address
    untouched, with the resolver's NetworkError when the lookup fails and with
    NetworkError "Unable to resolve address" carrying the endpoint text when
    the lookup succeeds with an empty list.  When it succeeds, its answer is
    the first entry [ParseAddressList] appends for the text of that endpoint
    alone. *)
Theorem SockaddrFromHostPort_spec (os : Net.OS) (host_port : HostPort.t)
    (addr : Sockaddr.t) :
  let r := Net.getaddrinfo os (HostPort.host host_port) inet_stream_hints in
  (Net.gai_rc r ≠ 0 →
     Net.SockaddrFromHostPort os host_port addr =
       (mkStatus kNetworkError
          ("Unable to resolve address '" +:+ HostPort.host host_port +:+ "'")
          (Net.gai_strerror os (Net.gai_rc r)) None, addr))
  ∧ (Net.gai_rc r = 0 → Net.gai_addrs r = [] →
     Net.SockaddrFromHostPort os host_port addr =
       (mkStatus kNetworkError "Unable to resolve address"
          (HostPort.ToString host_port) None, addr))
  ∧ (∀ a rest, Net.gai_rc r = 0 → Net.gai_addrs r = a :: rest →
     Net.SockaddrFromHostPort os host_port addr =
       (Status_OK, Sockaddr.mk a (HostPort.port host_port)))
  ∧ (∀ first str default_port,
       Net.SockaddrFromHostPort os host_port addr = (Status_OK, first) →
       HostPort.ParseStrings str default_port [] = (Status_OK, [host_port]) →
       ∃ more, Net.ParseAddressList os str default_port [] = (Status_OK, first :: more)).
Proof.
  intros r. unfold Net.SockaddrFromHostPort.
  destruct (decide (resolves os host_port)) as [Hres | Hres].
  - rewrite (ResolveAddresses_resolved _ _ _ Hres). cbn [ok code Status_OK default app].
    unfold resolved. fold r. unfold resolves in Hres. fold r in Hres.
    split; [intros H; contradiction|]. split; [|split].
    + intros _ ->. reflexivity.
    + intros a rest _ ->. reflexivity.
    + intros first str default_port Hfirst Hparse.
      unfold Net.ParseAddressList. rewrite Hparse. cbn [ok code Status_OK].
      rewrite (ParseAddressList_loop_resolved os [host_port]) by (constructor; [exact Hres|constructor]).
      rewrite insert_unique_spec. cbn [snd map concat]. rewrite app_nil_r.
      unfold resolved. fold r. destruct (Net.gai_addrs r) as [|a rest]; [discriminate|].
      injection Hfirst as <-. cbn [map first_occurrences app].
      rewrite filter_cons_True by apply not_elem_of_empty. eexists. reflexivity.
  - rewrite (ResolveAddresses_unresolved _ _ _ Hres).
    unfold resolves in Hres. fold r in Hres.
    assert (ok (unresolved_status os host_port) = false) as Hok by reflexivity.
    rewrite Hok. split; [intros _; reflexivity|].
    split; [intros H; contradiction|]. split; [intros a rest H; contradiction|].
    intros first str default_port [=].
Qed.

Lemma SockaddrFromHostPort_spec_witness :
  Net.SockaddrFromHostPort os_db (HostPort.mk "twice" 9000) (Sockaddr.mk 0 0) =
    (Status_OK, Sockaddr.mk 167772162 9000)
  ∧ Net.SockaddrFromHostPort os_db (HostPort.mk "nowhere" 9000) (Sockaddr.mk 0 0) =
    (mkStatus kNetworkError "Unable to resolve address 'nowhere'"
       "Name or service not known" None, Sockaddr.mk 0 0)
  ∧ ∃ more, Net.ParseAddressList os_db "twice:9000" 1 [] =
              (Status_OK, Sockaddr.mk 167772162 9000 :: more).
Proof.
  pose proof (SockaddrFromHostPort_spec os_db (HostPort.mk "twice" 9000) (Sockaddr.mk 0 0))
    as (_ & _ & H3 & H4).
  pose proof (SockaddrFromHostPort_spec os_db (HostPort.mk "nowhere" 9000) (Sockaddr.mk 0 0))
    as (H1 & _).
  split; [apply (H3 167772162 [167772161; 167772162]); reflexivity|].
  split; [apply H1; discriminate|].
  apply (H4 (Sockaddr.mk 167772162 9000) "twice:9000" 1); reflexivity.
Defined.

(** X11.  [HostPortFromSockaddrReplaceWildcard] keeps the port of the
    address.  For an address other than the wildcard it cannot fail, asks the
    system nothing, and the endpoint it builds equals the address in the sense
    of [HostPort::equals].  For the wildcard address it succeeds exactly when
    the host name and its canonical name can be obtained, the host then being
    the canonical name; on failure the caller's endpoint is left untouched. *)
Theorem HostPortFromSockaddrReplaceWildcard_spec (os : Net.OS) (addr : Sockaddr.t)
    (hp : HostPort.t) :
  let r := Net.HostPortFromSockaddrReplaceWildcard os addr hp in
  (Sockaddr.IsWildcard addr = false →
     r = (Status_OK, HostPort.of_Sockaddr addr)
     ∧ HostPort.equals (snd r) addr = true)
  ∧ (Sockaddr.IsWildcard addr = true →
       (ok (fst r) = true ↔
          Net.gethostname_ret os = 0
          ∧ Net.gai_rc (Net.getaddrinfo os (Net.gethostname_name os) canonname_hints) = 0)
       ∧ (ok (fst r) = true →
            r = (Status_OK,
                 HostPort.mk
                   (Net.gai_canonname
                      (Net.getaddrinfo os (Net.gethostname_name os) canonname_hints))
                   (Sockaddr.port addr)))
       ∧ (ok (fst r) = false → snd r = hp ∧ code (fst r) = kNetworkError)).
Proof.
  intros r. unfold r, Net.HostPortFromSockaddrReplaceWildcard. split.
  - intros ->. cbn. unfold HostPort.equals, HostPort.of_Sockaddr. cbn.
    rewrite !bool_decide_eq_true_2 by reflexivity. split; reflexivity.
  - intros ->. unfold Net.GetFQDN, Net.GetHostname. fold canonname_hints.
    destruct (decide (Net.gethostname_ret os ≠ 0)) as [Hret|Hret]; cbn.
    + split; [split; [discriminate|intros [H _]; contradiction]|].
      split; [discriminate|]. intros _. split; reflexivity.
    + destruct (decide (Net.gai_rc _ ≠ 0)) as [Hrc|Hrc]; cbn.
      * split; [split; [discriminate|intros [_ H]; contradiction]|].
        split; [discriminate|]. intros _. split; reflexivity.
      * split; [split; [intros _; split; lia|reflexivity]|].
        split; [reflexivity|discriminate].
Qed.

Lemma HostPortFromSockaddrReplaceWildcard_spec_witness :
  Net.HostPortFromSockaddrReplaceWildcard os_db (Sockaddr.mk 167772161 7100) HostPort.empty =
    (Status_OK, HostPort.mk "10.0.0.1" 7100)
  ∧ Net.HostPortFromSockaddrReplaceWildcard os_db (Sockaddr.mk 0 7100) HostPort.empty =
    (Status_OK, HostPort.mk "db.local" 7100)
  ∧ snd (Net.HostPortFromSockaddrReplaceWildcard os_no_names (Sockaddr.mk 0 7100)
           (HostPort.mk "old" 1)) = HostPort.mk "old" 1.
Proof.
  split; [|split].
  - apply (proj1 (HostPortFromSockaddrReplaceWildcard_spec os_db
                    (Sockaddr.mk 167772161 7100) HostPort.empty)). reflexivity.
  - apply (proj1 (proj2 (proj2 (HostPortFromSockaddrReplaceWildcard_spec os_db
                    (Sockaddr.mk 0 7100) HostPort.empty) eq_refl))). reflexivity.
  - apply (proj2 (proj2 (proj2 (HostPortFromSockaddrReplaceWildcard_spec os_no_names
                    (Sockaddr.mk 0 7100) (HostPort.mk "old" 1)) eq_refl))). reflexivity.
Defined.

(** ** More on GetFreePort *)

(** X12.  [GetFreePort] returns at the first attempt that can bind and lock:
    when the lock directory exists and attempt [k] of the first 1000 is the
    earliest that succeeds, the call returns the port drawn at that attempt
    with the lock on its file, after exactly [k + 1] attempts, and the
    directory gains that one lock and nothing else. *)
Theorem GetFreePort_first_success (env : Alloc.PortEnv) (held : gset string) (k : nat) :
  Alloc.create_dir_ok env = true →
  (k < 1000)%nat →
  attempt_succeeds env held k = true →
  (∀ j, (j < k)%nat → attempt_succeeds env held j = false) →
  let r := Alloc.GetFreePort env held in
  Alloc.outcome r =
    Alloc.Returned (candidate env k) (Alloc.mkLock (Alloc.lock_file (candidate env k)))
  ∧ Alloc.held_after r = {[Alloc.lock_file (candidate env k)]} ∪ held
  ∧ length (Alloc.attempts r) = S k.
Proof.
  intros Hdir Hk Hat Hbefore r. unfold r, Alloc.GetFreePort. rewrite Hdir.
  destruct (GetFreePort_loop_post env held Alloc.kAttempts 0 [])
    as [(k' & fails & Hk' & Hlen & _ & Hbefore' & Hat' & ->) | (Hall & _)].
  - rewrite Nat.add_0_l in Hat'.
    assert (k' = k) as ->.
    { destruct (Nat.lt_trichotomy k' k) as [Hlt | [Heq | Hgt]]; [|exact Heq|].
      - rewrite (Hbefore _ Hlt) in Hat'. discriminate.
      - specialize (Hbefore' k Hgt). rewrite Nat.add_0_l, Hat in Hbefore'. discriminate. }
    cbn [Alloc.outcome Alloc.held_after Alloc.attempts]. rewrite Nat.add_0_l.
    repeat split. rewrite app_nil_l, length_app. simpl. lia.
  - specialize (Hall k Hk). rewrite Nat.add_0_l, Hat in Hall. discriminate.
Qed.

Lemma GetFreePort_first_success_witness :
  Alloc.outcome (Alloc.GetFreePort env_free {[Alloc.lock_file 40007; Alloc.lock_file 40008]}) =
    Alloc.Returned 40009 (Alloc.mkLock "/tmp/yb-port-locks/40009.lck")
  ∧ length (Alloc.attempts
              (Alloc.GetFreePort env_free {[Alloc.lock_file 40007; Alloc.lock_file 40008]}))
    = 3%nat.
Proof.
  pose proof (GetFreePort_first_success env_free
                {[Alloc.lock_file 40007; Alloc.lock_file 40008]} 2) as H.
  destruct H as (H1 & _ & H3).
  - reflexivity.
  - lia.
  - vm_compute. reflexivity.
  - intros j Hj. destruct j as [|[|j]]; [vm_compute; reflexivity..|lia].
  - split; [exact H1|exact H3].
Defined.

(** X13.  [GetFreePort] ends in the fatal log exactly when the lock directory
    cannot be created or none of the 1000 attempts can bind and lock; in every
    other case it returns a port. *)
Theorem GetFreePort_fatal_iff (env : Alloc.PortEnv) (held : gset string) :
  (∃ msg, Alloc.outcome (Alloc.GetFreePort env held) = Alloc.Fatal msg)
  ↔ (Alloc.create_dir_ok env = false
     ∨ ∀ i, (i < 1000)%nat → attempt_succeeds env held i = false).
Proof.
  split.
  - intros [msg Hmsg]. destruct (Alloc.create_dir_ok env) eqn:Hdir; [right|left; reflexivity].
    unfold Alloc.GetFreePort in Hmsg. rewrite Hdir in Hmsg.
    destruct (GetFreePort_loop_post env held Alloc.kAttempts 0 [])
      as [(k & fails & _ & _ & _ & _ & _ & E) | (Hall & _)].
    + rewrite E in Hmsg. discriminate Hmsg.
    + intros i Hi. exact (Hall i Hi).
  - intros [Hdir | Hall].
    + exists Alloc.fatal_no_dir. unfold Alloc.GetFreePort. rewrite Hdir. reflexivity.
    + destruct (Alloc.create_dir_ok env) eqn:Hdir.
      * destruct (GetFreePort_exhausted env held Hdir Hall) as (fails & _ & _ & E).
        exists Alloc.fatal_no_port. rewrite E. reflexivity.
      * exists Alloc.fatal_no_dir. unfold Alloc.GetFreePort. rewrite Hdir. reflexivity.
Qed.

(** X14.  A port returned by [GetFreePort] is never a privileged port in the
    sense of [IsPrivilegedPort], which among the 16-bit ports holds exactly
    for 1..1024. *)
Theorem GetFreePort_not_privileged (env : Alloc.PortEnv) (held : gset string) (p : Z)
    (l : Alloc.FileLock) :
  Alloc.outcome (Alloc.GetFreePort env held) = Alloc.Returned p l →
  Net.IsPrivilegedPort p = false
  ∧ ∀ q, 0 ≤ q ≤ 65535 → (Net.IsPrivilegedPort q = true ↔ 1 ≤ q ≤ 1024).
Proof.
  intros H. apply GetFreePort_returned in H as (k & _ & _ & _ & _ & _ & -> & _).
  pose proof (random_port_of_range (Alloc.rand_next env k)) as Hr.
  unfold Alloc.kMinPort, Alloc.kMaxPort in Hr.
  unfold Net.IsPrivilegedPort, candidate. split.
  - rewrite (bool_decide_eq_false_2 (_ ≤ 1024)) by lia. reflexivity.
  - intros q Hq. rewrite andb_true_iff, negb_true_iff, bool_decide_eq_true,
      bool_decide_eq_false. lia.
Qed.

Lemma GetFreePort_not_privileged_witness : Net.IsPrivilegedPort 40007 = false.
Proof.
  refine (proj1 (GetFreePort_not_privileged env_free ∅ 40007
                   (Alloc.mkLock "/tmp/yb-port-locks/40007.lck") _)).
  vm_compute. reflexivity.
Defined.

(** The lock directory holds the foreign locks and the locks of the live
    reservations, and the two do not overlap. *)
Lemma lock_dir_step (held0 : gset string) (s : Alloc.System) (e : Alloc.Event) :
  sound s →
  Alloc.lock_dir s = held0 ∪ list_to_set (handle_file <$> Alloc.handles s) →
  (∀ h, h ∈ Alloc.handles s → handle_file h ∉ held0) →
  Alloc.lock_dir (Alloc.step s e) =
    held0 ∪ list_to_set (handle_file <$> Alloc.handles (Alloc.step s e))
  ∧ (∀ h, h ∈ Alloc.handles (Alloc.step s e) → handle_file h ∉ held0).
Proof.
  intros [Hports Hlocks] Hdir Hforeign. destruct e as [inst env|k]; cbn [Alloc.step].
  - destruct (Alloc.outcome (Alloc.GetFreePort env (Alloc.lock_dir s))) as [p l|msg] eqn:E.
    + apply GetFreePort_returned in E
        as (k & fails & _ & _ & _ & Hat & Hp & -> & -> & _).
      unfold attempt_succeeds in Hat. apply andb_prop in Hat as [Hat _].
      apply andb_prop in Hat as [_ Hfree]. apply bool_decide_eq_true in Hfree.
      rewrite <- Hp in Hfree. clear Hp. cbn [Alloc.handles Alloc.lock_dir]. split.
      * rewrite fmap_app, list_to_set_app_L, Hdir. cbn. unfold handle_file at 2. cbn.
        set_solver.
      * intros h Hh. apply elem_of_app in Hh as [Hh | Hh]; [exact (Hforeign h Hh)|].
        apply list_elem_of_singleton in Hh. subst h. unfold handle_file. cbn.
        rewrite Hdir in Hfree. set_solver.
    + rewrite (GetFreePort_fatal_held _ _ _ E). split; assumption.
  - destruct (Alloc.handles s !! k) as [h|] eqn:Hk; [|split; assumption].
    cbn [Alloc.handles Alloc.lock_dir]. split.
    + destruct (Hlocks h (list_elem_of_lookup_2 _ _ _ Hk)) as [Hlk _].
      unfold Alloc.UnlockFile. rewrite Hlk. cbn. fold (handle_file h).
      pose proof (Hforeign h (list_elem_of_lookup_2 _ _ _ Hk)) as Hh0.
      assert (handle_file h ∉ handle_file <$> delete k (Alloc.handles s)) as Hgone.
      { intros Hin. apply list_elem_of_fmap in Hin as (h' & Heq & Hin').
        apply list_elem_of_lookup in Hin' as [i Hi].
        assert (∃ i', i' ≠ k ∧ Alloc.handles s !! i' = Some h') as (i' & Hne & Hi').
        { destruct (decide (i < k)%nat).
          - exists i. rewrite list_lookup_delete_lt in Hi by lia. split; [lia|exact Hi].
          - exists (S i). rewrite list_lookup_delete_ge in Hi by lia. split; [lia|exact Hi]. }
        apply lock_file_inj in Heq. exact (Hports _ _ _ _ Hk Hi' (not_eq_sym Hne) Heq). }
      assert (list_to_set (handle_file <$> Alloc.handles s) =@{gset string}
              {[handle_file h]} ∪ list_to_set (handle_file <$> delete k (Alloc.handles s)))
        as Hsplit.
      { rewrite <- (take_drop_middle _ _ _ Hk) at 1.
        rewrite delete_take_drop, !fmap_app, !list_to_set_app_L. cbn. set_solver. }
      rewrite Hdir, Hsplit.
      assert (handle_file h ∉ (list_to_set (handle_file <$> delete k (Alloc.handles s))
                               : gset string)) as Hgone'
        by (rewrite elem_of_list_to_set; exact Hgone).
      generalize dependent (list_to_set (handle_file <$> delete k (Alloc.handles s))
                            : gset string).
      intros rest _ Hrest. clear -Hh0 Hrest. set_solver.
    + intros h' Hh'. apply Hforeign. exact (list_elem_of_delete_inv _ _ _ Hh').
Qed.

(** X15.  The lock directory never leaks a lock and never loses a foreign
    one: after any sequence of calls and discards, the locked files are
    exactly those that were locked by others at the start together with the
    lock files of the reservations still held, and these two sets are
    disjoint.  In particular, once every reservation is discarded the
    directory is as it was found. *)
Theorem lock_dir_exact (held0 : gset string) (evs : list Alloc.Event) :
  let s := Alloc.run evs (Alloc.start held0) in
  Alloc.lock_dir s =
    held0 ∪ list_to_set ((λ h, Alloc.lock_file (Alloc.h_port h)) <$> Alloc.handles s)
  ∧ (∀ h, h ∈ Alloc.handles s → Alloc.lock_file (Alloc.h_port h) ∉ held0)
  ∧ (Alloc.handles s = [] → Alloc.lock_dir s = held0).
Proof.
  cbv zeta.
  assert (∀ evs s, sound s →
            Alloc.lock_dir s = held0 ∪ list_to_set (handle_file <$> Alloc.handles s) →
            (∀ h, h ∈ Alloc.handles s → handle_file h ∉ held0) →
            Alloc.lock_dir (Alloc.run evs s) =
              held0 ∪ list_to_set (handle_file <$> Alloc.handles (Alloc.run evs s))
            ∧ (∀ h, h ∈ Alloc.handles (Alloc.run evs s) → handle_file h ∉ held0)) as Hrun.
  { clear evs. induction evs as [|e evs IH]; intros s Hs Hdir Hf; [split; assumption|].
    destruct (lock_dir_step held0 s e Hs Hdir Hf) as [Hdir' Hf'].
    exact (IH _ (sound_step _ e Hs) Hdir' Hf'). }
  destruct (Hrun evs (Alloc.start held0) (sound_start held0)) as [Hdir Hf].
  - cbn. set_solver.
  - intros h Hh. cbn in Hh. apply elem_of_nil in Hh. contradiction.
  - split; [exact Hdir|]. split; [exact Hf|].
    intros Hnil. rewrite Hdir. unfold handle_file. rewrite Hnil. cbn. set_solver.
Qed.

Lemma lock_dir_exact_witness :
  Alloc.lock_dir
    (Alloc.run [Alloc.CallGetFreePort 0 env_free; Alloc.CallGetFreePort 1 env_free;
                Alloc.Discard 1; Alloc.CallGetFreePort 2 env_busy; Alloc.Discard 0]
       (Alloc.start {[Alloc.lock_file 40008]})) =
  {[Alloc.lock_file 40008]}.
Proof.
  apply (proj2 (proj2 (lock_dir_exact {[Alloc.lock_file 40008]}
           [Alloc.CallGetFreePort 0 env_free; Alloc.CallGetFreePort 1 env_free;
            Alloc.Discard 1; Alloc.CallGetFreePort 2 env_busy; Alloc.Discard 0]))).
  vm_compute. reflexivity.
Defined.

(** ** Removal followed by writing and reading *)

Lemma SplitLimit1_fst_strcount (s : string) (d c : ascii) :
  strcount s c = 0%nat → strcount (fst (SplitLimit1 s d)) c = 0%nat.
Proof.
  induction s as [|a s IH]; simpl; [reflexivity|].
  destruct (decide (a = c)) as [|Hne]; [discriminate|]. intros H.
  destruct (decide (a = d)); [reflexivity|].
  destruct (SplitLimit1 s d) as [l r]. simpl in *.
  rewrite decide_False by exact Hne. apply IH. lia.
Qed.

Lemma parse_value_well_formed (default_port : Z) (s : string) :
  parses default_port s → strcount s comma = 0%nat →
  well_formed (parse_value default_port s)
  ∧ strcount (HostPort.host (parse_value default_port s)) comma = 0%nat.
Proof.
  unfold parses, parse_status, parse_value, HostPort.ParseString. intros Hok Hcomma.
  assert (∀ q, well_formed
                 (HostPort.mk (StripWhiteSpace (fst (SplitLimit1 s colon))) (q `mod` 65536))
               ∧ strcount (StripWhiteSpace (fst (SplitLimit1 s colon))) comma = 0%nat)
    as Hgood.
  { intros q. split; [split|].
    - destruct (StripWhiteSpace_spec (fst (SplitLimit1 s colon)))
        as (l & r & _ & _ & _ & H1 & H2).
      split; [apply StripWhiteSpace_strcount, SplitLimit1_fst_absent|split; assumption].
    - cbn. pose proof (Z.mod_pos_bound q 65536 ltac:(lia)). lia.
    - apply StripWhiteSpace_strcount, SplitLimit1_fst_strcount, Hcomma. }
  destruct (_ && _); [apply Hgood|].
  destruct (SimpleAtoi _) as [n|]; [|discriminate Hok].
  destruct (decide (n > 65535)); [discriminate Hok|apply Hgood].
Qed.

(** X16.  Removal is complete and stable.  When every segment parses, the
    endpoints [RemoveAndGetHostPortList] leaves in an empty vector can be
    written with [ToCommaSeparatedString] and given back to it: this second
    call finds no endpoint equal to the target, reports NotFound, and yields
    the same endpoints again. *)
Theorem RemoveAndGetHostPortList_again (remove : Sockaddr.t) (multiple : list string)
    (default_port default_port' : Z) :
  let r := HostPort.RemoveAndGetHostPortList remove multiple default_port [] in
  let r' := HostPort.RemoveAndGetHostPortList remove
              [HostPort.ToCommaSeparatedString (HostPort.res r)] default_port' [] in
  Forall (parses default_port) (flat_segments multiple) →
  code (HostPort.status r') = kNotFound ∧ HostPort.res r' = HostPort.res r.
Proof.
  intros r r' Hp. unfold r' at 1 2.
  assert (HostPort.res r = kept remove (map (parse_value default_port) (flat_segments multiple)))
    as Hres.
  { unfold r. rewrite (RemoveAndGetHostPortList_parsed _ _ _ _ Hp).
    destruct (existsb _ _); reflexivity. }
  assert (Forall (λ hp, (well_formed hp ∧ strcount (HostPort.host hp) comma = 0%nat)
                        ∧ is_target remove hp = false) (HostPort.res r)) as Hall.
  { rewrite Hres. apply Forall_forall. intros hp Hhp. unfold kept in Hhp.
    apply list_elem_of_filter in Hhp as [Hne Hin]. split; [|exact Hne].
    apply list_elem_of_In, in_map_iff in Hin as (s & <- & Hs).
    apply list_elem_of_In in Hs.
    rewrite Forall_forall in Hp. apply parse_value_well_formed; [exact (Hp _ Hs)|].
    unfold flat_segments in Hs. apply list_elem_of_In, in_concat in Hs as (segs & Hsegs & Hs).
    apply in_map_iff in Hsegs as (m & <- & _). apply list_elem_of_In in Hs.
    pose proof (SplitSkipEmpty_pieces m comma) as Hpieces.
    rewrite Forall_forall in Hpieces. exact (proj2 (Hpieces _ Hs)). }
  clear Hres. generalize dependent (HostPort.res r). intros l _ Hall.
  assert (Forall (parses default_port') (map HostPort.ToString l)
          ∧ map (parse_value default_port') (map HostPort.ToString l) = l) as [Hparses Hback].
  { clear Hp. induction Hall as [|hp l [[Hwf _] _] _ [IH1 IH2]]; [split; [constructor|reflexivity]|].
    cbn [map]. split.
    - constructor; [|exact IH1]. unfold parses, parse_status.
      rewrite (ParseString_ToString _ _ _ Hwf). reflexivity.
    - rewrite IH2. f_equal. unfold parse_value.
      rewrite (ParseString_ToString _ _ _ Hwf). reflexivity. }
  assert (flat_segments [HostPort.ToCommaSeparatedString l] = map HostPort.ToString l) as Hflat.
  { unfold flat_segments, HostPort.ToCommaSeparatedString. cbn [map concat].
    rewrite app_nil_r, JoinStrings_join. apply SplitSkipEmpty_join.
    apply Forall_forall. intros s Hs. apply list_elem_of_In, in_map_iff in Hs as (hp & <- & Hin).
    rewrite Forall_forall in Hall.
    destruct (Hall hp (proj2 (list_elem_of_In _ _) Hin)) as [[[_ Hport] Hcomma] _].
    apply ToString_piece; [exact Hcomma|lia]. }
  assert (existsb (is_target remove) l = false) as Hnone.
  { apply not_true_is_false. intros H. apply existsb_exists in H as (hp & Hin & Hhp).
    rewrite Forall_forall in Hall.
    destruct (Hall hp (proj2 (list_elem_of_In _ _) Hin)) as [_ Hne]. congruence. }
  rewrite RemoveAndGetHostPortList_parsed by (rewrite Hflat; exact Hparses).
  rewrite Hflat, Hback, Hnone. cbn. split; [reflexivity|]. apply kept_all, Hnone.
Qed.

Lemma RemoveAndGetHostPortList_again_witness :
  let r := HostPort.RemoveAndGetHostPortList (Sockaddr.mk 167772161 7100)
             ["10.0.0.1:7100, m2 "; "10.0.0.1,m3:9"] 7100 [] in
  HostPort.res r = [HostPort.mk "m2" 7100; HostPort.mk "m3" 9]
  ∧ HostPort.res (HostPort.RemoveAndGetHostPortList (Sockaddr.mk 167772161 7100)
                    [HostPort.ToCommaSeparatedString (HostPort.res r)] 0 []) =
    HostPort.res r.
Proof.
  split; [reflexivity|].
  refine (proj2 (RemoveAndGetHostPortList_again (Sockaddr.mk 167772161 7100)
                   ["10.0.0.1:7100, m2 "; "10.0.0.1,m3:9"] 7100 0 _)).
  repeat constructor.
Defined.

Lemma GetFreePort_fatal_iff_witness :
  ∃ msg, Alloc.outcome (Alloc.GetFreePort env_busy {[Alloc.lock_file 40000]}) = Alloc.Fatal msg.
Proof.
  apply (proj2 (GetFreePort_fatal_iff env_busy {[Alloc.lock_file 40000]})).
  right. intros i _. reflexivity.
Defined.
